(** * Module specifier resolution of typescript-deno-plugin

    A shallow embedding of the resolution code of the plugin's main
    module: the import-map store ([getImportMap]), the substitution closure
    built by
    [makeTransformFromImportMap], the specifier normalizer
    ([getModuleWithQueryString], [stripExtNameDotTs]), the remote cache
    mapper ([convertRemoteToLocalCache]) and the redirect resolver
    ([fallbackHeader]).

    Conventions of the embedding:
    - a JavaScript string is a [string], one [ascii] per code unit; the
      methods used by the source ([indexOf], [substring], [slice], [startsWith], [endsWith],
      [replace]) are defined below with the clamping the language gives
      them; numbers that index strings are [Z], with [-1] for "absent";
    - a call either returns, throws, or is still running when the fuel is
      spent ([outcome]); fuel bounds loop iterations and recursion depth and
      has no counterpart in the source;
    - the file system is a finite map from paths to nodes; a regular file
      carries its modification time and what [JSON.parse] makes of its text;
    - the modification time is a JavaScript number that the source only
      interpolates into a string; it is kept as its decimal writing;
    - [logger.info] calls are left out: they do not influence results. *)

From Stdlib Require Import ZArith Ascii.
From stdpp Require Import base option list gmap strings.

Local Open Scope Z_scope.
Set Warnings "-register-all".

(** ** JavaScript strings *)

Definition str_length (s : string) : Z := Z.of_nat (String.length s).

(** The first [n] characters of [s] (all of [s] when it is shorter). *)
Fixpoint str_take (n : nat) (s : string) : string :=
  match n, s with
  | O, _ => EmptyString
  | S _, EmptyString => EmptyString
  | S n', String c s' => String c (str_take n' s')
  end.

(** [s] without its first [n] characters (empty when it is shorter). *)
Fixpoint str_drop (n : nat) (s : string) : string :=
  match n, s with
  | O, _ => s
  | S _, EmptyString => EmptyString
  | S n', String _ s' => str_drop n' s'
  end.

(** [s.startsWith(p)] *)
Fixpoint startsWith (s p : string) {struct p} : bool :=
  match p, s with
  | EmptyString, _ => true
  | String _ _, EmptyString => false
  | String a p', String b s' => if decide (a = b) then startsWith s' p' else false
  end.

(** [s.endsWith(p)]: the last [p.length] characters of [s] are [p]. *)
Definition endsWith (s p : string) : bool :=
  if decide (String.length p ≤ String.length s)%nat
  then bool_decide (str_drop (String.length s - String.length p) s = p)
  else false.

(** [s.indexOf(p)]: the least position at which [p] occurs, [-1] if none. *)
Fixpoint indexOf (s p : string) : Z :=
  if startsWith s p then 0
  else match s with
       | EmptyString => -1
       | String _ s' => let i := indexOf s' p in if decide (i = -1) then -1 else i + 1
       end.

(** [s.substring(start, end)]: both arguments are clamped to
    [0 .. s.length] and swapped when [start > end]. *)
Definition substring (s : string) (start end_ : Z) : string :=
  let lo := Z.to_nat (Z.min start end_) in
  let hi := Z.to_nat (Z.max start end_) in
  str_take (hi - lo) (str_drop lo s).

(** [s.substring(start)] *)
Definition substring_from (s : string) (start : Z) : string :=
  substring s start (str_length s).

(** [s.slice(start, end)]: a negative argument counts from the end of the
    string; the result is empty when the bounds cross. *)
Definition slice (s : string) (start end_ : Z) : string :=
  let len := str_length s in
  let rel (k : Z) := if decide (k < 0) then Z.max (len + k) 0 else Z.min k len in
  let from := rel start in
  let to := rel end_ in
  str_take (Z.to_nat (to - from)) (str_drop (Z.to_nat from) s).

(** [s.replace(p, r)] for a string pattern [p] and a replacement [r] without
    [$] patterns: only the first occurrence is replaced. *)
Definition replace (s p r : string) : string :=
  let i := indexOf s p in
  if decide (i = -1) then s
  else substring s 0 i +:+ r +:+ substring_from s (i + str_length p).

(** ** Outcomes of a call *)

Inductive error : Type :=
  | ENOENT        (* fs: no such file or directory *)
  | EISDIR        (* fs: read of a directory *)
  | SyntaxError   (* JSON.parse on text that is not JSON *)
  | TypeError     (* property access or method call on a value without it *)
  | RangeError.   (* the call stack is exhausted *)

Inductive outcome (A : Type) : Type :=
  | Ret (a : A)
  | Throw (e : error)
  | OutOfFuel.
Arguments Ret {A} a.
Arguments Throw {A} e.
Arguments OutOfFuel {A}.

Definition bind {A B : Type} (m : outcome A) (k : A → outcome B) : outcome B :=
  match m with
  | Ret a => k a
  | Throw e => Throw e
  | OutOfFuel => OutOfFuel
  end.

Notation "x ← m ;;; k" := (bind m (λ x, k))
  (at level 20, m at level 100, k at level 200, right associativity,
   format "'[' x  ←  m  ;;; '/' k ']'").

(** [returns f v]: the call modelled by [f] terminates and yields [v]. *)
Definition returns {A : Type} (f : nat → outcome A) (v : A) : Prop :=
  ∃ fuel, f fuel = Ret v.

(** [diverges f]: the call never finishes, whatever the fuel. *)
Definition diverges {A : Type} (f : nat → outcome A) : Prop :=
  ∀ fuel, f fuel = OutOfFuel.

(** ** Specifier normalizer *)

(** The loop of [getModuleWithQueryString]:
    [for (const index = ...; index !== -1; name = name.substring(index + 1))].
    [index] is a constant of the loop; only [name] changes between
    iterations.  [None] is JavaScript's [undefined], the value of a call
    that falls off the end of the function. *)
Fixpoint getModuleWithQueryString_loop
    (fuel : nat) (moduleName : string) (index : Z) (name : string)
    : outcome (option string) :=
  if decide (index = -1) then Ret None
  else match fuel with
       | O => OutOfFuel
       | S fuel' =>
           if endsWith (substring name 0 index) ".ts" then
             let cutLength := str_length moduleName - str_length name in
             Ret (Some (substring moduleName 0 (index + cutLength)))
           else
             getModuleWithQueryString_loop fuel' moduleName index
               (substring_from name (index + 1))
       end.

Definition getModuleWithQueryString (fuel : nat) (moduleName : string)
    : outcome (option string) :=
  let name := moduleName in
  getModuleWithQueryString_loop fuel moduleName (indexOf name "?") name.

(** [if (moduleWithQuery)]: [undefined] and the empty string are falsy. *)
Definition truthy (v : option string) : bool :=
  match v with
  | None => false
  | Some s => negb (bool_decide (s = ""))
  end.

Definition stripExtNameDotTs (fuel : nat) (moduleName : string) : outcome string :=
  moduleWithQuery ← getModuleWithQueryString fuel moduleName ;;;
  if truthy moduleWithQuery then Ret (default "" moduleWithQuery)
  else if negb (endsWith moduleName ".ts") then Ret moduleName
  else
    let name := slice moduleName 0 (-3) in
    Ret name.

(** ** JSON documents and the file system *)

(** A JSON document as written: the members of an object are kept in
    document order, repeated names included. *)
Inductive json : Type :=
  | JNull
  | JBool (b : bool)
  | JNumber (n : Z)
  | JString (s : string)
  | JArray (items : list json)
  | JObject (members : list (string * json)).

(** The value bound to [name] among [members] once parsed: a later member
    overwrites an earlier one of the same name. *)
Fixpoint last_member {A : Type} (members : list (string * A)) (name : string) : option A :=
  match members with
  | [] => None
  | (k, v) :: rest =>
      match last_member rest name with
      | Some w => Some w
      | None => if decide (k = name) then Some v else None
      end
  end.

(** [v.name] for a parsed value [v] and a name that [Object.prototype],
    [Array.prototype] and the wrappers of primitives do not define
    ([redirect_to], [imports]): reading a property of [null] throws, a
    missing property is [undefined] ([None]). *)
Definition get_property (v : json) (name : string) : outcome (option json) :=
  match v with
  | JNull => Throw TypeError
  | JObject members => Ret (last_member members name)
  | _ => Ret None
  end.

(** A string method called on the value: anything that is not a string has
    no usable [indexOf]/[substring]/[endsWith] and the call throws. *)
Definition as_string (v : option json) : outcome string :=
  match v with
  | Some (JString s) => Ret s
  | _ => Throw TypeError
  end.

(** The text of a regular file, seen through [JSON.parse]. *)
Inductive file_text : Type :=
  | JsonText (doc : json)
  | NotJson.

(** [fileStats.mtimeMs] is a double, with a fraction on ordinary files.
    The source does one thing with it: it interpolates it into the cache
    key.  A number is therefore kept as the text [String(x)] gives for it,
    ["1573000000000.1234"] for instance; numbers that are equal are
    written the same. *)
Record number : Type := Number { Number_toString : string }.

Inductive node : Type :=
  | File (mtimeMs : number) (text : file_text)
  | Directory (mtimeMs : number).

Definition JSON_parse (text : file_text) : outcome json :=
  match text with
  | JsonText doc => Ret doc
  | NotJson => Throw SyntaxError
  end.

Definition existsSync (fs : gmap string node) (path : string) : bool :=
  bool_decide (is_Some (fs !! path)).

Definition readFileSync (fs : gmap string node) (path : string) : outcome file_text :=
  match fs !! path with
  | Some (File _ text) => Ret text
  | Some (Directory _) => Throw EISDIR
  | None => Throw ENOENT
  end.

(** [fs.statSync(path).mtimeMs] *)
Definition statSync_mtimeMs (fs : gmap string node) (path : string) : outcome number :=
  match fs !! path with
  | Some (File mtimeMs _) => Ret mtimeMs
  | Some (Directory mtimeMs) => Ret mtimeMs
  | None => Throw ENOENT
  end.

(** ** [path.resolve] (POSIX) *)

(** [s.split("/")] *)
Fixpoint split_slash (s : string) : list string :=
  match s with
  | EmptyString => [EmptyString]
  | String c s' =>
      match split_slash s' with
      | seg :: rest =>
          if decide (c = "/"%char) then EmptyString :: seg :: rest
          else String c seg :: rest
      | [] => [String c EmptyString]
      end
  end.

Fixpoint join_slash (segs : list string) : string :=
  match segs with
  | [] => EmptyString
  | [seg] => seg
  | seg :: rest => seg +:+ "/" +:+ join_slash rest
  end.

(** Node's [normalizeString]: empty and [.] segments vanish, [..] removes
    the segment before it; above the root it is dropped, or kept when
    [allowAboveRoot].  [stack] holds the kept segments, last one first. *)
Fixpoint normalize_segments (allowAboveRoot : bool) (stack segs : list string)
    : list string :=
  match segs with
  | [] => rev stack
  | seg :: rest =>
      if decide (seg = "" ∨ seg = ".") then normalize_segments allowAboveRoot stack rest
      else if decide (seg = "..") then
        match stack with
        | top :: below =>
            if decide (top = "..") then
              normalize_segments allowAboveRoot
                (if allowAboveRoot then ".." :: stack else stack) rest
            else normalize_segments allowAboveRoot below rest
        | [] =>
            normalize_segments allowAboveRoot
              (if allowAboveRoot then [".."] else []) rest
        end
      else normalize_segments allowAboveRoot (seg :: stack) rest
  end.

(** The right-to-left scan of [path.resolve]: arguments are prepended until
    an absolute one has been taken. *)
Fixpoint resolve_scan (args_right_to_left : list string) (resolvedPath : string)
    : string * bool :=
  match args_right_to_left with
  | [] => (resolvedPath, false)
  | path :: rest =>
      if decide (path = "") then resolve_scan rest resolvedPath
      else
        let resolvedPath' := path +:+ "/" +:+ resolvedPath in
        if startsWith path "/" then (resolvedPath', true)
        else resolve_scan rest resolvedPath'
  end.

(** [path.resolve(...args)] in a process whose working directory is [cwd]. *)
Definition path_resolve (cwd : string) (args : list string) : string :=
  let '(resolvedPath, resolvedAbsolute) := resolve_scan (rev args ++ [cwd]) "" in
  let normalized :=
    join_slash (normalize_segments (negb resolvedAbsolute) [] (split_slash resolvedPath)) in
  if resolvedAbsolute then "/" +:+ normalized
  else if decide (normalized = "") then "." else normalized.


(** ** Remote cache mapper and redirect resolver *)

(** [const validPath = modulePath.endsWith(".ts") ? modulePath : `${modulePath}.ts`] *)
Definition validPath (modulePath : string) : string :=
  if endsWith modulePath ".ts" then modulePath else modulePath +:+ ".ts".

Section Resolver.
(** [denoDir] is what [getDenoDir()] returns, [cwd] the working directory
    of the process, [fs] the state of the file system. *)
Context (denoDir cwd : string) (fs : gmap string node).

(** The body of [convertRemoteToLocalCache], with the redirect resolver it
    calls as an argument (the two functions are mutually recursive). *)
Definition convertRemoteToLocalCache_with
    (fallbackHeader : string → outcome string) (moduleName : string)
    : outcome string :=
  if negb (startsWith moduleName "http://") && negb (startsWith moduleName "https://")
  then Ret moduleName
  else
    let name := path_resolve cwd [denoDir; "deps"; replace moduleName "://" "/"] in
    fallbackHeader name.

Fixpoint fallbackHeader (fuel : nat) (modulePath : string) : outcome string :=
  match fuel with
  | O => OutOfFuel
  | S fuel' =>
      let validPath := validPath modulePath in
      if existsSync fs validPath then Ret modulePath
      else
        let headersPath := validPath +:+ ".headers.json" in
        if existsSync fs headersPath then
          text ← readFileSync fs headersPath ;;;
          headers ← JSON_parse text ;;;
          redirect_to ← get_property headers "redirect_to" ;;;
          target ← as_string redirect_to ;;;
          stripped ← stripExtNameDotTs fuel' target ;;;
          convertRemoteToLocalCache_with (fallbackHeader fuel') stripped
        else Ret modulePath
  end.

Definition convertRemoteToLocalCache (fuel : nat) (moduleName : string)
    : outcome string :=
  convertRemoteToLocalCache_with (fallbackHeader fuel) moduleName.
End Resolver.

(** [redirects fs modulePath target]: in [fs] nothing exists at the path
    checked for [modulePath], and the sidecar next to it is a JSON document
    whose [redirect_to] is the string [target]. *)
Definition redirects (fs : gmap string node) (modulePath target : string) : Prop :=
  existsSync fs (validPath modulePath) = false ∧
  ∃ headers,
    readFileSync fs (validPath modulePath +:+ ".headers.json") = Ret (JsonText headers) ∧
    get_property headers "redirect_to" = Ret (Some (JString target)).

(** ** Import map store *)

(** Parsed values live in a heap; a reference is an index into it.  Every
    [JSON.parse] call allocates a new value. *)
Record store : Type := {
  heap : list json;
  importMapCache : gmap string nat
}.

(** [`${filePath}-${fileStats.mtimeMs}`] *)
Definition cacheKey (filePath : string) (mtimeMs : number) : string :=
  filePath +:+ "-" +:+ Number_toString mtimeMs.

Definition getImportMap (fs : gmap string node) (st : store) (filePath : string)
    : outcome nat * store :=
  match statSync_mtimeMs fs filePath with
  | Ret mtimeMs =>
      let cacheKey := cacheKey filePath mtimeMs in
      match importMapCache st !! cacheKey with
      | None =>
          match (importMapFile ← readFileSync fs filePath ;;; JSON_parse importMapFile) with
          | Ret doc =>
              let workingImportMap := length (heap st) in
              (Ret workingImportMap,
               {| heap := heap st ++ [doc];
                  importMapCache := <[cacheKey := workingImportMap]> (importMapCache st) |})
          | Throw e => (Throw e, st)
          | OutOfFuel => (OutOfFuel, st)
          end
      | Some workingImportMap => (Ret workingImportMap, st)
      end
  | Throw e => (Throw e, st)
  | OutOfFuel => (OutOfFuel, st)
  end.

(** The store of a process that has loaded nothing yet. *)
Definition empty_store : store := {| heap := []; importMapCache := ∅ |}.

(** Every cached reference points into the heap. *)
Definition store_wf (st : store) : Prop :=
  ∀ key l, importMapCache st !! key = Some l → (l < length (heap st))%nat.

(** The store after a sequence of loads, each against the file system of
    its time; failures leave the store as it is. *)
Definition run_loads (st : store) (loads : list (gmap string node * string)) : store :=
  foldl (λ st load, (getImportMap load.1 st load.2).2) st loads.

(** ** Import map substitution *)

(** [IImportMap]: the shape the parsed document is cast to.  [imports]
    lists the members of the document's [imports] object in document
    order. *)
Record IImportMap : Type := { imports : list (string * string) }.

Definition is_digit (c : ascii) : bool :=
  bool_decide (48 ≤ nat_of_ascii c ≤ 57)%nat.

Fixpoint digits_value (acc : N) (s : string) : option N :=
  match s with
  | EmptyString => Some acc
  | String c s' =>
      if is_digit c then digits_value (acc * 10 + (N_of_ascii c - 48))%N s' else None
  end.

(** A property name is an array index when it is the canonical decimal
    writing of an integer in [0 .. 2^32 - 2]. *)
Definition array_index (k : string) : option N :=
  match k with
  | EmptyString => None
  | String c rest =>
      if decide (c = "0"%char ∧ rest ≠ "") then None
      else n ← digits_value 0 k; if decide (n < 2 ^ 32 - 1)%N then Some n else None
  end.

(** The distinct names of [members], each at its first occurrence. *)
Fixpoint own_names {A : Type} (members : list (string * A)) : list string :=
  match members with
  | [] => []
  | (k, _) :: rest => k :: filter (λ k', k' ≠ k) (own_names rest)
  end.

Fixpoint insert_index (k : N * string) (sorted : list (N * string)) : list (N * string) :=
  match sorted with
  | [] => [k]
  | h :: t => if decide (k.1 ≤ h.1)%N then k :: h :: t else h :: insert_index k t
  end.

(** [Object.keys(o)] for the object parsed from [members]: array indices in
    ascending numeric order, then the other names in the order in which
    they were first written. *)
Definition Object_keys {A : Type} (members : list (string * A)) : list string :=
  let names := own_names members in
  let indices := omap (λ k, n ← array_index k; Some (n, k)) names in
  (foldr insert_index [] indices).*2 ++ filter (λ k, array_index k = None) names.

(** The [for (const key of importKeys)] loop of the returned closure;
    [imports[key]] is the value the parsed object holds for [key]. *)
Fixpoint transform_loop (imports : list (string * string)) (importKeys : list string)
    (moduleName : string) : string :=
  match importKeys with
  | [] => moduleName
  | key :: rest =>
      if startsWith moduleName key then
        let strippedModuleName := substring_from moduleName (str_length key) in
        let realModuleName :=
          default "undefined" (last_member imports key) +:+ strippedModuleName in
        realModuleName
      else transform_loop imports rest moduleName
  end.

(** The closure [(moduleName: string) => ...] returned when an import map
    is configured. *)
Definition transformFromImportMap (importMap : IImportMap) (moduleName : string)
    : string :=
  let imports := imports importMap in
  let importKeys := Object_keys imports in
  transform_loop imports importKeys moduleName.

(** [makeTransformFromImportMap], given the import map the project
    configuration leads to: [None] when no configuration file is found or
    it names no import map. *)
Definition makeTransformFromImportMap (importMap : option IImportMap)
    : string → string :=
  match importMap with
  | Some importMap => transformFromImportMap importMap
  | None => λ moduleName, moduleName
  end.

(** ** The redirect resolver on a bounded call stack *)

(** [fallbackHeader] as Node runs it: on a call stack with room for [depth]
    nested calls of the function.  A call that finds no room left ends with
    a [RangeError]; nothing in the function itself bounds the nesting.
    [fuel] bounds the loop of the normalizer, as before. *)
Section ResolverOnStack.
Context (denoDir cwd : string) (fs : gmap string node).

Fixpoint fallbackHeader_on_stack (fuel depth : nat) (modulePath : string)
    : outcome string :=
  match depth with
  | O => Throw RangeError
  | S depth' =>
      let validPath := validPath modulePath in
      if existsSync fs validPath then Ret modulePath
      else
        let headersPath := validPath +:+ ".headers.json" in
        if existsSync fs headersPath then
          text ← readFileSync fs headersPath ;;;
          headers ← JSON_parse text ;;;
          redirect_to ← get_property headers "redirect_to" ;;;
          target ← as_string redirect_to ;;;
          stripped ← stripExtNameDotTs fuel target ;;;
          convertRemoteToLocalCache_with denoDir cwd
            (fallbackHeader_on_stack fuel depth') stripped
        else Ret modulePath
  end.
End ResolverOnStack.

(** ** The module-name hook *)

(** [array.map(f)] for a callback that may throw or not return: the
    elements are visited in index order and the first failure is the
    failure of the whole call. *)
Fixpoint mapM {A B : Type} (f : A → outcome B) (l : list A) : outcome (list B) :=
  match l with
  | [] => Ret []
  | x :: rest => y ← f x ;;; ys ← mapM f rest ;;; Ret (y :: ys)
  end.

(** The rewriting that the replaced [resolveModuleNames] applies to
    [moduleNames] before it calls the host's own resolver:
    [moduleNames.map(transformFromImportMap).map(stripExtNameDotTs)
       .map(convertRemoteToLocalCache)].
    [importMap] is the import map the project configuration leads to, as
    for [makeTransformFromImportMap]. *)
Definition resolveModuleNames
    (denoDir cwd : string) (fs : gmap string node)
    (importMap : option IImportMap) (fuel : nat) (moduleNames : list string)
    : outcome (list string) :=
  let transformFromImportMap := makeTransformFromImportMap importMap in
  stripped ← mapM (stripExtNameDotTs fuel) (map transformFromImportMap moduleNames) ;;;
  mapM (convertRemoteToLocalCache denoDir cwd fs fuel) stripped.

(** ** The declaration file of the runtime *)

(** [a || b] on values that are a string or [undefined]. *)
Definition or_else (a b : option string) : option string :=
  if truthy a then a else b.

(** [dtsPath] is [info.config.dtsPath]. *)
Definition getDtsPathForVscode (fs : gmap string node) (dtsPath : option string)
    : option string :=
  let bundledDtsPath := dtsPath in
  if truthy bundledDtsPath && existsSync fs (default "" bundledDtsPath)
  then bundledDtsPath
  else None.

Definition getGlobalDtsPath (denoDir cwd : string) (fs : gmap string node)
    : option string :=
  let globalDtsPath := path_resolve cwd [denoDir; "lib.deno_runtime.d.ts"] in
  if existsSync fs globalDtsPath then Some globalDtsPath else None.

(** [currentDirectory] is [info.project.getCurrentDirectory()]. *)
Definition getLocalDtsPath (cwd : string) (fs : gmap string node)
    (currentDirectory : string) : option string :=
  let localDtsPath :=
    path_resolve cwd
      [currentDirectory; "node_modules"; "typescript-deno-plugin"; "lib";
       "lib.deno_runtime.d.ts"] in
  if existsSync fs localDtsPath then Some localDtsPath else None.

(** The replaced [getScriptFileNames], applied to the list the host's own
    [getScriptFileNames] returned.  [push] changes that array in place; the
    result is its contents afterwards. *)
Definition getScriptFileNames
    (denoDir cwd : string) (fs : gmap string node)
    (dtsPath : option string) (currentDirectory : string)
    (scriptFileNames : list string) : list string :=
  let denoDtsPath :=
    or_else (or_else (getDtsPathForVscode fs dtsPath) (getGlobalDtsPath denoDir cwd fs))
            (getLocalDtsPath cwd fs currentDirectory) in
  if truthy denoDtsPath then scriptFileNames ++ [default "" denoDtsPath]
  else scriptFileNames.

(** ** Notions used to state properties *)

(** What the [k]-th iteration of the loop of [getModuleWithQueryString]
    tests, for a specifier whose first [?] is at position [i]: by then
    [name] is the specifier without its first [k * (i + 1)] characters. *)
Definition block_probe (moduleName : string) (i k : nat) : bool :=
  endsWith (str_take i (str_drop (k * S i) moduleName)) ".ts".

(** [hop denoDir cwd fs p q]: the sidecar of [p] redirects to a remote
    address without query, whose cache path is [q]. *)
Definition hop (denoDir cwd : string) (fs : gmap string node) (p q : string) : Prop :=
  ∃ target,
    redirects fs p target ∧
    indexOf target "?" = -1 ∧
    startsWith (if endsWith target ".ts" then slice target 0 (-3) else target) "http://"
      || startsWith (if endsWith target ".ts" then slice target 0 (-3) else target) "https://"
      = true ∧
    path_resolve cwd
      [denoDir; "deps";
       replace (if endsWith target ".ts" then slice target 0 (-3) else target) "://" "/"]
      = q.

(** [chain denoDir cwd fs p hops]: starting at [p], each path of [hops] is
    one [hop] away from the one before it. *)
Fixpoint chain (denoDir cwd : string) (fs : gmap string node)
    (p : string) (hops : list string) : Prop :=
  match hops with
  | [] => True
  | q :: rest => hop denoDir cwd fs p q ∧ chain denoDir cwd fs q rest
  end.

(** Resolution stops at [q]: the module is there, or it has no sidecar. *)
Definition settled (fs : gmap string node) (q : string) : Prop :=
  existsSync fs (validPath q) = true ∨
  existsSync fs (validPath q +:+ ".headers.json") = false.

(** The cache and the heap match: every reference points into the heap, no
    two keys share a reference, and there are as many entries as cells. *)
Definition store_inv (st : store) : Prop :=
  store_wf st ∧
  (∀ k1 k2 l, importMapCache st !! k1 = Some l → importMapCache st !! k2 = Some l → k1 = k2) ∧
  size (importMapCache st) = length (heap st).

(** ** Sample file systems *)

(** A sidecar that redirects a module to its own address. *)
Definition fs_cycle : gmap string node :=
  {[ "/home/u/.deno/deps/https/deno.land/x/a/mod.ts.headers.json" :=
       File (Number "1573000000000.1234")
         (JsonText (JObject [("mime_type", JString "application/typescript");
                             ("redirect_to", JString "https://deno.land/x/a/mod.ts")])) ]}.

(** A module that moved: only the sidecar of the old address is cached. *)
Definition fs_moved : gmap string node :=
  {[ "/home/u/.deno/deps/https/deno.land/x/old/mod.ts.headers.json" :=
       File (Number "1573000000000.1234")
         (JsonText (JObject [("redirect_to", JString "https://deno.land/x/new/mod.ts")])) ]}.

(** A sidecar whose target is not a remote address. *)
Definition fs_local_target : gmap string node :=
  {[ "/home/u/.deno/deps/https/deno.land/x/b/mod.ts.headers.json" :=
       File (Number "1573000000000.1234")
         (JsonText (JObject [("redirect_to", JString "../c/mod.ts")])) ]}.

(** A module that moved twice; the last address is cached. *)
Definition fs_chain : gmap string node :=
  {[ "/home/u/.deno/deps/https/deno.land/x/v1/mod.ts.headers.json" :=
       File (Number "1573000000000.1234")
         (JsonText (JObject [("redirect_to", JString "https://deno.land/x/v2/mod.ts")]));
     "/home/u/.deno/deps/https/deno.land/x/v2/mod.ts.headers.json" :=
       File (Number "1573000000000.1234")
         (JsonText (JObject [("redirect_to", JString "https://deno.land/x/v3/mod.ts")]));
     "/home/u/.deno/deps/https/deno.land/x/v3/mod.ts" :=
       File (Number "1573000000000.1234") NotJson ]}.

(** Sidecars that cannot be used: one is not JSON, one names no target. *)
Definition fs_garbled_sidecar : gmap string node :=
  {[ "/home/u/.deno/deps/https/deno.land/x/g/mod.ts.headers.json" :=
       File (Number "1573000000000.1234") NotJson ]}.

Definition fs_sidecar_without_target : gmap string node :=
  {[ "/home/u/.deno/deps/https/deno.land/x/h/mod.ts.headers.json" :=
       File (Number "1573000000000.1234")
         (JsonText (JObject [("mime_type", JString "application/typescript")])) ]}.

(** The declaration file is installed globally and locally. *)
Definition fs_dts : gmap string node :=
  {[ "/home/u/.deno/lib.deno_runtime.d.ts" := File (Number "1573000000000.1234") NotJson;
     "/w/proj/node_modules/typescript-deno-plugin/lib/lib.deno_runtime.d.ts" :=
       File (Number "1573000000000.1234") NotJson ]}.

(** An import map file, before and after it is touched, and files that
    are not import maps. *)
Definition import_map_doc : json :=
  JObject [("imports", JObject [("std/", JString "https://deno.land/std/")])].

Definition fs_import_map : gmap string node :=
  {[ "/p/import_map.json" := File (Number "1573000000000.1234") (JsonText import_map_doc) ]}.

Definition fs_import_map_touched : gmap string node :=
  {[ "/p/import_map.json" := File (Number "1573000060000.5678") (JsonText import_map_doc) ]}.

(** The file edited and then given its first modification time again. *)
Definition import_map_doc_edited : json :=
  JObject [("imports", JObject [("std/", JString "https://example.com/std/")])].

Definition fs_import_map_reverted : gmap string node :=
  {[ "/p/import_map.json" :=
       File (Number "1573000000000.1234") (JsonText import_map_doc_edited) ]}.

Definition fs_no_imports : gmap string node :=
  {[ "/p/import_map.json" := File (Number "1573000000000.1234") (JsonText (JObject [])) ]}.

Definition fs_import_map_garbled : gmap string node :=
  {[ "/p/import_map.json" := File (Number "1573000000000.1234") NotJson ]}.

(** * Properties *)

(** ** Strings and paths *)

Example substring_swaps_and_clamps :
  substring "abcdef" 4 1 = "bcd" ∧ substring "abcdef" (-2) 99 = "abcdef".
Proof. split; reflexivity. Qed.

Example slice_counts_from_the_end :
  slice "mod.ts" 0 (-3) = "mod" ∧ slice "ts" 0 (-3) = "".
Proof. split; reflexivity. Qed.

Example replace_first_occurrence_only :
  replace "https://a/x://y" "://" "/" = "https/a/x://y".
Proof. reflexivity. Qed.

Example path_resolve_normalizes :
  path_resolve "/w" ["/home/u/.deno"; "deps"; "https/deno.land/x/../y//z/"] =
  "/home/u/.deno/deps/https/deno.land/y/z".
Proof. reflexivity. Qed.

Example path_resolve_relative_to_cwd :
  path_resolve "/w/x" ["a"; "../../../b"] = "/b".
Proof. reflexivity. Qed.

Example Object_keys_order :
  Object_keys [("std/", 1); ("10", 2); ("a", 3); ("1", 4); ("std/", 5); ("01", 6)]
  = ["1"; "10"; "std/"; "a"; "01"].
Proof. reflexivity. Qed.

Lemma str_take_drop (n : nat) (s : string) : str_take n s +:+ str_drop n s = s.
Proof.
  revert n; induction s as [|c s IH]; intros [|n]; try reflexivity.
  cbn. unfold String.app in *. cbn. by rewrite IH.
Qed.

Lemma str_drop_0 (s : string) : str_drop 0 s = s.
Proof. by destruct s. Qed.

Lemma str_take_all (n : nat) (s : string) :
  (String.length s ≤ n)%nat → str_take n s = s.
Proof.
  revert n; induction s as [|c s IH]; intros [|n] H; cbn in *; try done; try lia.
  f_equal. apply IH. lia.
Qed.

Lemma str_drop_all (n : nat) (s : string) :
  (String.length s ≤ n)%nat → str_drop n s = "".
Proof.
  revert n; induction s as [|c s IH]; intros [|n] H; cbn in *; try done; try lia.
  apply IH. lia.
Qed.

Lemma str_drop_drop (n m : nat) (s : string) :
  str_drop n (str_drop m s) = str_drop (m + n) s.
Proof.
  revert m; induction s as [|c s IH]; intros [|m]; cbn.
  - by destruct n.
  - by destruct n.
  - done.
  - apply IH.
Qed.

Lemma length_str_drop (n : nat) (s : string) :
  String.length (str_drop n s) = (String.length s - n)%nat.
Proof.
  revert n; induction s as [|c s IH]; intros [|n]; cbn; auto.
Qed.

Lemma length_str_take (n : nat) (s : string) :
  String.length (str_take n s) = (n `min` String.length s)%nat.
Proof.
  revert n; induction s as [|c s IH]; intros [|n]; cbn; try done. by rewrite IH.
Qed.

Lemma str_drop_app (a b : string) : str_drop (String.length a) (a +:+ b) = b.
Proof. induction a as [|c a IH]; cbn; [apply str_drop_0 | apply IH]. Qed.

Lemma substring_0 (s : string) (k : Z) : substring s 0 k = str_take (Z.to_nat k) s.
Proof.
  unfold substring. destruct (Z.le_gt_cases 0 k).
  - rewrite Z.min_l, Z.max_r by lia. cbn. by rewrite Nat.sub_0_r, str_drop_0.
  - rewrite Z.min_r, Z.max_l by lia. replace (Z.to_nat k) with O by lia. by destruct s.
Qed.

Lemma substring_from_drop (s : string) (k : Z) :
  substring_from s k = str_drop (Z.to_nat k) s.
Proof.
  unfold substring_from, substring, str_length.
  destruct (Z.le_gt_cases k (Z.of_nat (String.length s))).
  - rewrite Z.min_l, Z.max_r by lia. apply str_take_all.
    rewrite length_str_drop. lia.
  - rewrite Z.min_r, Z.max_l by lia. rewrite Nat2Z.id.
    rewrite !str_drop_all by lia. by destruct (_ - _)%nat.
Qed.

Lemma startsWith_app (p rest : string) : startsWith (p +:+ rest) p = true.
Proof.
  induction p as [|c p IH]; [done|]. unfold String.app in *. cbn.
  by rewrite decide_True.
Qed.

(** [startsWith] is the literal-prefix test: [s] is [p] followed by the
    rest of [s]. *)
Lemma startsWith_split (s p : string) :
  startsWith s p = true → s = p +:+ str_drop (String.length p) s.
Proof.
  revert s; induction p as [|c p IH]; intros s H.
  - by rewrite str_drop_0.
  - destruct s as [|b s]; [done|]. cbn in H. case_decide; [subst|done].
    cbn. unfold String.app in *. cbn. f_equal. by apply IH.
Qed.

Lemma startsWith_take (n : nat) (s p : string) :
  startsWith (str_take n s) p = true → startsWith s p = true.
Proof.
  revert n s; induction p as [|c p IH]; intros n s H; [done|].
  destruct n as [|n], s as [|b s]; try done.
  cbn in *. case_decide; [|done]. by eapply IH.
Qed.

Lemma endsWith_length (s p : string) :
  endsWith s p = true → (String.length p ≤ String.length s)%nat.
Proof. unfold endsWith. by case_decide. Qed.

Lemma endsWith_split (s p : string) :
  endsWith s p = true → s = str_take (String.length s - String.length p) s +:+ p.
Proof.
  unfold endsWith. case_decide; [|done]. intros Hp%bool_decide_eq_true.
  rewrite <- Hp at 2. by rewrite str_take_drop.
Qed.

Lemma slice_0_neg (s : string) (k : nat) :
  slice s 0 (- Z.of_nat (S k)) = str_take (String.length s - S k) s.
Proof.
  unfold slice, str_length. cbv zeta.
  destruct (decide (0 < 0)) as [?|_]; [lia|].
  destruct (decide (- Z.of_nat (S k) < 0)) as [_|?]; [|lia].
  rewrite Z.min_l by lia. cbn [Z.to_nat].
  rewrite str_drop_0. f_equal. lia.
Qed.

Lemma indexOf_range (s p : string) : indexOf s p = -1 ∨ 0 ≤ indexOf s p.
Proof.
  induction s as [|c s IH]; cbn.
  - destruct (startsWith "" p); auto with lia.
  - destruct (startsWith (String c s) p); [auto with lia|].
    case_decide; lia.
Qed.

Lemma app_String (c : ascii) (a b : string) : String c a +:+ b = String c (a +:+ b).
Proof. reflexivity. Qed.

Lemma indexOf_String (c : ascii) (s p : string) :
  indexOf (String c s) p =
    if startsWith (String c s) p then 0
    else if decide (indexOf s p = -1) then -1 else indexOf s p + 1.
Proof. reflexivity. Qed.

(** An occurrence of [p] anywhere in a string is found by [indexOf]. *)
Lemma indexOf_occurrence (x p y : string) : indexOf (x +:+ p +:+ y) p ≠ -1.
Proof.
  induction x as [|c x IH].
  - change ("" +:+ p +:+ y) with (p +:+ y).
    pose proof (startsWith_app p y) as H.
    destruct (p +:+ y); cbn; by rewrite H.
  - rewrite app_String, indexOf_String. destruct (startsWith _ p); [done|].
    case_decide; [done|]. destruct (indexOf_range (x +:+ p +:+ y) p); lia.
Qed.

(** ** Specifier normalizer *)

Lemma getModuleWithQueryString_loop_absent
    (fuel : nat) (moduleName name : string) :
  getModuleWithQueryString_loop fuel moduleName (-1) name = Ret None.
Proof. by destruct fuel. Qed.

Lemma getModuleWithQueryString_loop_S
    (fuel : nat) (moduleName : string) (index : Z) (name : string) :
  index ≠ -1 →
  getModuleWithQueryString_loop (S fuel) moduleName index name =
    if endsWith (substring name 0 index) ".ts" then
      Ret (Some (substring moduleName 0
                   (index + (str_length moduleName - str_length name))))
    else getModuleWithQueryString_loop fuel moduleName index
           (substring_from name (index + 1)).
Proof. intros H. cbn. by rewrite decide_False. Qed.

Lemma getModuleWithQueryString_loop_0
    (moduleName : string) (index : Z) (name : string) :
  index ≠ -1 → getModuleWithQueryString_loop 0 moduleName index name = OutOfFuel.
Proof. intros H. cbn. by rewrite decide_False. Qed.

(** Without a [?] the loop is not entered, and the extension strip decides. *)
Lemma stripExtNameDotTs_no_query (fuel : nat) (moduleName : string) :
  indexOf moduleName "?" = -1 →
  stripExtNameDotTs fuel moduleName =
    Ret (if endsWith moduleName ".ts" then slice moduleName 0 (-3) else moduleName).
Proof.
  intros H. unfold stripExtNameDotTs, getModuleWithQueryString.
  rewrite H, getModuleWithQueryString_loop_absent. cbn.
  by destruct (endsWith moduleName ".ts").
Qed.

(** With a [?] the loop can only be left through its [return]: the value
    is a non-empty prefix of the specifier. *)
Lemma getModuleWithQueryString_loop_returns
    (fuel : nat) (moduleName : string) (index : Z) (name : string)
    (r : option string) :
  index ≠ -1 →
  (∃ j, name = str_drop j moduleName) →
  getModuleWithQueryString_loop fuel moduleName index name = Ret r →
  ∃ k, r = Some (str_take k moduleName) ∧ str_take k moduleName ≠ "".
Proof.
  intros Hi. revert name. induction fuel as [|fuel IH]; intros name [j ->].
  { by rewrite getModuleWithQueryString_loop_0. }
  rewrite getModuleWithQueryString_loop_S by done.
  destruct (endsWith _ ".ts") eqn:He.
  - intros [= <-]. rewrite substring_0. eexists; split; [done|].
    apply endsWith_length in He. rewrite substring_0, length_str_take in He.
    rewrite length_str_drop in He. cbn in He.
    intros Hnil%(f_equal String.length). rewrite length_str_take in Hnil.
    unfold str_length in Hnil. rewrite length_str_drop in Hnil. cbn in Hnil. lia.
  - apply IH. rewrite substring_from_drop, str_drop_drop. eauto.
Qed.

Lemma getModuleWithQueryString_returns
    (fuel : nat) (moduleName : string) (r : option string) :
  indexOf moduleName "?" ≠ -1 →
  getModuleWithQueryString fuel moduleName = Ret r →
  ∃ k, r = Some (str_take k moduleName) ∧ str_take k moduleName ≠ "".
Proof.
  intros Hi. apply getModuleWithQueryString_loop_returns; [done|].
  exists O. by rewrite str_drop_0.
Qed.

(** Whatever [stripExtNameDotTs] returns is a prefix of its argument. *)
Lemma stripExtNameDotTs_prefix (fuel : nat) (moduleName t : string) :
  stripExtNameDotTs fuel moduleName = Ret t → ∃ k, t = str_take k moduleName.
Proof.
  destruct (decide (indexOf moduleName "?" = -1)) as [Hq|Hq].
  - rewrite stripExtNameDotTs_no_query by done. intros [= <-].
    destruct (endsWith _ _).
    + eexists. apply (slice_0_neg _ 2).
    + exists (String.length moduleName). by rewrite str_take_all.
  - unfold stripExtNameDotTs.
    destruct (getModuleWithQueryString fuel moduleName) as [r| |] eqn:Hr; try done.
    destruct (getModuleWithQueryString_returns _ _ _ Hq Hr) as (k & -> & Hk).
    cbn. rewrite bool_decide_false by done. cbn. intros [= <-]. eauto.
Qed.

(** Once a call has returned, more fuel does not change its result. *)
Lemma getModuleWithQueryString_loop_mono
    (fuel fuel' : nat) (moduleName : string) (index : Z) (name : string)
    (r : option string) :
  (fuel ≤ fuel')%nat →
  getModuleWithQueryString_loop fuel moduleName index name = Ret r →
  getModuleWithQueryString_loop fuel' moduleName index name = Ret r.
Proof.
  destruct (decide (index = -1)) as [->|Hi].
  { by rewrite !getModuleWithQueryString_loop_absent. }
  revert fuel' name. induction fuel as [|fuel IH]; intros fuel' name Hle.
  { by rewrite getModuleWithQueryString_loop_0. }
  destruct fuel' as [|fuel']; [lia|].
  rewrite !getModuleWithQueryString_loop_S by done.
  destruct (endsWith _ _); [done|]. apply IH. lia.
Qed.

Lemma stripExtNameDotTs_mono (fuel fuel' : nat) (moduleName t : string) :
  (fuel ≤ fuel')%nat →
  stripExtNameDotTs fuel moduleName = Ret t →
  stripExtNameDotTs fuel' moduleName = Ret t.
Proof.
  intros Hle. unfold stripExtNameDotTs, getModuleWithQueryString.
  destruct (getModuleWithQueryString_loop fuel _ _ _) as [r| |] eqn:Hr; try done.
  by rewrite (getModuleWithQueryString_loop_mono _ _ _ _ _ _ Hle Hr).
Qed.

Lemma app_assoc_str (a b c : string) : (a +:+ b) +:+ c = a +:+ b +:+ c.
Proof. induction a as [|x a IH]; [done|]. by rewrite !app_String, IH. Qed.

(** A specifier in which [.ts] does not occur has no piece ending in it. *)
Lemma endsWith_ts_piece (moduleName : string) (j k : nat) :
  indexOf moduleName ".ts" = -1 →
  endsWith (str_take k (str_drop j moduleName)) ".ts" = false.
Proof.
  intros Hts. destruct (endsWith _ _) eqn:He; [|done].
  apply endsWith_split in He. exfalso.
  pose proof (str_take_drop j moduleName) as Hm.
  pose proof (str_take_drop k (str_drop j moduleName)) as Hd.
  rewrite He in Hd. rewrite <- Hd, app_assoc_str, <- app_assoc_str in Hm.
  rewrite <- Hm in Hts. by apply indexOf_occurrence in Hts.
Qed.

(** When the specifier has a [?] but no [.ts], no iteration of the loop
    returns, and the loop condition [index !== -1] never changes. *)
Lemma getModuleWithQueryString_loop_diverges
    (fuel : nat) (moduleName : string) (index : Z) (name : string) :
  index ≠ -1 →
  indexOf moduleName ".ts" = -1 →
  (∃ j, name = str_drop j moduleName) →
  getModuleWithQueryString_loop fuel moduleName index name = OutOfFuel.
Proof.
  intros Hi Hts. revert name. induction fuel as [|fuel IH]; intros name [j ->].
  { by rewrite getModuleWithQueryString_loop_0. }
  rewrite getModuleWithQueryString_loop_S by done.
  rewrite substring_0, endsWith_ts_piece by done.
  apply IH. rewrite substring_from_drop, str_drop_drop. eauto.
Qed.

(** C1 (the source departs from it).  The claim asks that a specifier with
    a query marker [?] and no [.ts]-terminated piece before it comes back
    unmodified.  In the source the loop index is computed once
    ([const index]), so for every specifier that contains [?] and in which
    [.ts] does not occur at all, the loop of [getModuleWithQueryString]
    never ends: [stripExtNameDotTs] does not return, whatever the fuel. *)
Theorem stripExtNameDotTs_query_without_ts_diverges (moduleName : string) :
  indexOf moduleName "?" ≠ -1 →
  indexOf moduleName ".ts" = -1 →
  diverges (λ fuel, stripExtNameDotTs fuel moduleName).
Proof.
  intros Hq Hts fuel. unfold stripExtNameDotTs, getModuleWithQueryString.
  rewrite getModuleWithQueryString_loop_diverges; [done..|].
  exists O. by rewrite str_drop_0.
Qed.

Lemma stripExtNameDotTs_foo_query_bar_diverges :
  indexOf "foo?bar" "?" = 3 ∧ indexOf "foo?bar" ".ts" = -1 ∧
  stripExtNameDotTs 1000 "foo?bar" = OutOfFuel.
Proof.
  split; [reflexivity|]. split; [reflexivity|].
  apply (stripExtNameDotTs_query_without_ts_diverges "foo?bar");
    vm_compute; congruence.
Defined.

(** C2 (as stated, refuted).  ["mod.ts?x=1"] is never returned unchanged. *)
Lemma stripExtNameDotTs_mod_ts_query_not_kept :
  ¬ returns (λ fuel, stripExtNameDotTs fuel "mod.ts?x=1") "mod.ts?x=1".
Proof. intros [[|fuel] H]; vm_compute in H; discriminate. Qed.

(** C2 (amended).  For ["mod.ts?x=1"] the normalizer cuts the specifier at
    the [?] and returns ["mod.ts"]: the query is dropped and the extension
    kept.  For ["mod.ts"] it returns ["mod"]. *)
Theorem stripExtNameDotTs_mod_ts :
  (∀ fuel, stripExtNameDotTs (S fuel) "mod.ts?x=1" = Ret "mod.ts") ∧
  (∀ fuel, stripExtNameDotTs fuel "mod.ts" = Ret "mod").
Proof.
  split; intros fuel.
  - reflexivity.
  - by rewrite stripExtNameDotTs_no_query.
Qed.

(** C7 (as stated, refuted).  The query split cuts ["foo/bar.ts?raw"] to
    ["foo/bar.ts"], which ends with [.ts]; the normalizer returns it as it
    is and never ["foo/bar"]. *)
Lemma stripExtNameDotTs_truncated_keeps_ts :
  getModuleWithQueryString 1 "foo/bar.ts?raw" = Ret (Some "foo/bar.ts") ∧
  endsWith "foo/bar.ts" ".ts" = true ∧
  stripExtNameDotTs 1 "foo/bar.ts?raw" = Ret "foo/bar.ts" ∧
  ¬ returns (λ fuel, stripExtNameDotTs fuel "foo/bar.ts?raw") "foo/bar".
Proof.
  repeat split; try reflexivity.
  intros [[|fuel] H]; vm_compute in H; discriminate.
Qed.

(** C7 (amended).  For a specifier without [?]: if it ends with [.ts] the
    normalizer removes exactly these three characters, otherwise it returns
    the specifier unchanged.  When the query split cuts the specifier, the
    cut specifier is returned as it is, extension included.  In particular
    ["foo/bar.ts"] gives ["foo/bar"] and ["foo/bar.js"] is unchanged. *)
Theorem stripExtNameDotTs_extension_strip (moduleName : string) (fuel : nat) :
  (indexOf moduleName "?" = -1 →
     (endsWith moduleName ".ts" = true →
        ∃ stem, moduleName = stem +:+ ".ts" ∧
                stripExtNameDotTs fuel moduleName = Ret stem) ∧
     (endsWith moduleName ".ts" = false →
        stripExtNameDotTs fuel moduleName = Ret moduleName)) ∧
  (∀ t, getModuleWithQueryString fuel moduleName = Ret (Some t) →
        stripExtNameDotTs fuel moduleName = Ret t) ∧
  stripExtNameDotTs fuel "foo/bar.ts" = Ret "foo/bar" ∧
  stripExtNameDotTs fuel "foo/bar.js" = Ret "foo/bar.js".
Proof.
  split; [|split; [|split]].
  - intros Hq. rewrite stripExtNameDotTs_no_query by done. split; intros He; rewrite He.
    + exists (slice moduleName 0 (-3)). split; [|done].
      rewrite (slice_0_neg _ 2). by apply endsWith_split in He.
    + done.
  - intros t Ht. destruct (decide (indexOf moduleName "?" = -1)) as [Hq|Hq].
    { unfold getModuleWithQueryString in Ht.
      by rewrite Hq, getModuleWithQueryString_loop_absent in Ht. }
    destruct (getModuleWithQueryString_returns _ _ _ Hq Ht) as (k & [= ->] & Hk).
    unfold stripExtNameDotTs. rewrite Ht. cbn. by rewrite bool_decide_false.
  - by rewrite stripExtNameDotTs_no_query.
  - by rewrite stripExtNameDotTs_no_query.
Qed.

Lemma stripExtNameDotTs_extension_strip_lib_ts :
  indexOf "lib/a.ts" "?" = -1 ∧ endsWith "lib/a.ts" ".ts" = true ∧
  ∃ stem, "lib/a.ts" = stem +:+ ".ts" ∧ stripExtNameDotTs 0 "lib/a.ts" = Ret stem.
Proof.
  split; [reflexivity|]. split; [reflexivity|].
  apply (stripExtNameDotTs_extension_strip "lib/a.ts" 0); reflexivity.
Defined.

(** ** Remote cache mapper and redirect resolver *)

Lemma replace_http (rest : string) :
  replace ("http://" +:+ rest) "://" "/" = "http/" +:+ rest.
Proof.
  unfold replace.
  assert (indexOf ("http://" +:+ rest) "://" = 4) as -> by reflexivity.
  rewrite decide_False by done.
  rewrite substring_0, substring_from_drop; reflexivity.
Qed.

Lemma replace_https (rest : string) :
  replace ("https://" +:+ rest) "://" "/" = "https/" +:+ rest.
Proof.
  unfold replace.
  assert (indexOf ("https://" +:+ rest) "://" = 5) as -> by reflexivity.
  rewrite decide_False by done.
  rewrite substring_0, substring_from_drop; reflexivity.
Qed.

Lemma readFileSync_exists (fs : gmap string node) (path : string) (text : file_text) :
  readFileSync fs path = Ret text → existsSync fs path = true.
Proof.
  unfold readFileSync, existsSync.
  destruct (fs !! path) as [[]|]; try done; intros _; by apply bool_decide_eq_true.
Qed.

Section ResolverFacts.
Context (denoDir cwd : string) (fs : gmap string node).

Local Abbreviation fallback := (fallbackHeader denoDir cwd fs).
Local Abbreviation convert := (convertRemoteToLocalCache denoDir cwd fs).

Lemma fallbackHeader_S (fuel : nat) (modulePath : string) :
  fallback (S fuel) modulePath =
    if existsSync fs (validPath modulePath) then Ret modulePath
    else if existsSync fs (validPath modulePath +:+ ".headers.json") then
      text ← readFileSync fs (validPath modulePath +:+ ".headers.json") ;;;
      headers ← JSON_parse text ;;;
      redirect_to ← get_property headers "redirect_to" ;;;
      target ← as_string redirect_to ;;;
      stripped ← stripExtNameDotTs fuel target ;;;
      convert fuel stripped
    else Ret modulePath.
Proof. reflexivity. Qed.

Lemma convertRemoteToLocalCache_local (fuel : nat) (moduleName : string) :
  startsWith moduleName "http://" = false →
  startsWith moduleName "https://" = false →
  convert fuel moduleName = Ret moduleName.
Proof.
  intros H1 H2. unfold convertRemoteToLocalCache, convertRemoteToLocalCache_with.
  by rewrite H1, H2.
Qed.

Lemma convertRemoteToLocalCache_remote (fuel : nat) (moduleName : string) :
  startsWith moduleName "http://" || startsWith moduleName "https://" = true →
  convert fuel moduleName =
    fallback fuel
      (path_resolve cwd [denoDir; "deps"; replace moduleName "://" "/"]).
Proof.
  intros H. unfold convertRemoteToLocalCache, convertRemoteToLocalCache_with.
  by destruct (startsWith moduleName "http://"), (startsWith moduleName "https://").
Qed.


Lemma fallbackHeader_mono (fuel fuel' : nat) (modulePath v : string) :
  (fuel ≤ fuel')%nat →
  fallback fuel modulePath = Ret v → fallback fuel' modulePath = Ret v.
Proof.
  revert fuel' modulePath v.
  induction fuel as [|fuel IH]; intros fuel' modulePath v Hle; [done|].
  destruct fuel' as [|fuel']; [lia|]. rewrite !fallbackHeader_S.
  destruct (existsSync fs (validPath modulePath)); [done|].
  destruct (existsSync fs (validPath modulePath +:+ ".headers.json")); [|done].
  destruct (readFileSync _ _) as [text| |]; [cbn|done..].
  destruct (JSON_parse text) as [headers| |]; [cbn|done..].
  destruct (get_property headers "redirect_to") as [redirect_to| |]; [cbn|done..].
  destruct (as_string redirect_to) as [target| |]; [cbn|done..].
  destruct (stripExtNameDotTs fuel target) as [stripped| |] eqn:Hs; [cbn|done..].
  rewrite (stripExtNameDotTs_mono fuel fuel' target stripped) by (done || lia). cbn.
  unfold convertRemoteToLocalCache, convertRemoteToLocalCache_with.
  destruct (_ && _); [done|]. apply IH. lia.
Qed.

Lemma convertRemoteToLocalCache_mono (fuel fuel' : nat) (moduleName v : string) :
  (fuel ≤ fuel')%nat →
  convert fuel moduleName = Ret v → convert fuel' moduleName = Ret v.
Proof.
  intros Hle. unfold convertRemoteToLocalCache, convertRemoteToLocalCache_with.
  destruct (_ && _); [done|]. by apply fallbackHeader_mono.
Qed.

(** What a call does when the sidecar redirects. *)
Lemma fallbackHeader_redirect (fuel : nat) (modulePath target : string) :
  redirects fs modulePath target →
  fallback (S fuel) modulePath =
    (stripped ← stripExtNameDotTs fuel target ;;; convert fuel stripped).
Proof.
  intros (Hno & headers & Hread & Hprop). rewrite fallbackHeader_S, Hno.
  rewrite (readFileSync_exists _ _ _ Hread), Hread. cbn. by rewrite Hprop.
Qed.
End ResolverFacts.

(** C3 (the source departs from it).  The claim asks that [fallbackHeader]
    terminates on every file system, redirect cycles included.  Whenever
    the sidecar of [modulePath] redirects to an address that is mapped back
    to [modulePath], the recursion never ends: no amount of fuel lets the
    call return.  (In the source this is marked [TODO: avoid Circular].) *)
Theorem fallbackHeader_redirect_cycle_diverges
    (denoDir cwd : string) (fs : gmap string node)
    (modulePath target stripped : string) :
  redirects fs modulePath target →
  (∀ fuel, stripExtNameDotTs fuel target = Ret stripped) →
  startsWith stripped "http://" || startsWith stripped "https://" = true →
  path_resolve cwd [denoDir; "deps"; replace stripped "://" "/"] = modulePath →
  diverges (λ fuel, fallbackHeader denoDir cwd fs fuel modulePath).
Proof.
  intros Hred Hstrip Hremote Hback fuel.
  induction fuel as [|fuel IH]; [done|].
  rewrite (fallbackHeader_redirect _ _ _ _ _ _ Hred), Hstrip. cbn.
  by rewrite convertRemoteToLocalCache_remote, Hback.
Qed.

Lemma fallbackHeader_self_redirect_diverges :
  redirects fs_cycle "/home/u/.deno/deps/https/deno.land/x/a/mod"
    "https://deno.land/x/a/mod.ts" ∧
  fallbackHeader "/home/u/.deno" "/" fs_cycle 1000
    "/home/u/.deno/deps/https/deno.land/x/a/mod" = OutOfFuel.
Proof.
  assert (redirects fs_cycle "/home/u/.deno/deps/https/deno.land/x/a/mod"
            "https://deno.land/x/a/mod.ts") as Hred.
  { split; [vm_compute; reflexivity|].
    exists (JObject [("mime_type", JString "application/typescript");
                     ("redirect_to", JString "https://deno.land/x/a/mod.ts")]).
    split; vm_compute; reflexivity. }
  split; [exact Hred|].
  apply (fallbackHeader_redirect_cycle_diverges "/home/u/.deno" "/" fs_cycle
           "/home/u/.deno/deps/https/deno.land/x/a/mod"
           "https://deno.land/x/a/mod.ts" "https://deno.land/x/a/mod" Hred).
  - intros fuel. by rewrite stripExtNameDotTs_no_query.
  - reflexivity.
  - vm_compute; reflexivity.
Defined.

(** C4.  [fallbackHeader] follows the algorithm of the redirect resolver.
    With [validPath modulePath] the path with [.ts] appended unless already
    there: if something exists at it, the result is [modulePath] itself;
    else if no sidecar exists the result is [modulePath]; else, for the
    sidecar's [redirect_to], the call behaves as
    [convertRemoteToLocalCache(stripExtNameDotTs(redirect_to))], and returns
    exactly what that returns.  A sidecar redirecting to
    [https://deno.land/x/new/mod.ts] resolves to what the cache mapper gives
    for [https://deno.land/x/new/mod]. *)
Theorem fallbackHeader_algorithm
    (denoDir cwd : string) (fs : gmap string node) (modulePath : string) :
  (existsSync fs (validPath modulePath) = true →
     ∀ fuel, fallbackHeader denoDir cwd fs (S fuel) modulePath = Ret modulePath) ∧
  (existsSync fs (validPath modulePath) = false →
   existsSync fs (validPath modulePath +:+ ".headers.json") = false →
     ∀ fuel, fallbackHeader denoDir cwd fs (S fuel) modulePath = Ret modulePath) ∧
  (∀ target, redirects fs modulePath target →
     (∀ fuel, fallbackHeader denoDir cwd fs (S fuel) modulePath =
              (stripped ← stripExtNameDotTs fuel target ;;;
               convertRemoteToLocalCache denoDir cwd fs fuel stripped)) ∧
     (∀ v, returns (λ fuel, fallbackHeader denoDir cwd fs fuel modulePath) v ↔
           ∃ stripped,
             returns (λ fuel, stripExtNameDotTs fuel target) stripped ∧
             returns (λ fuel, convertRemoteToLocalCache denoDir cwd fs fuel stripped) v)) ∧
  (redirects fs modulePath "https://deno.land/x/new/mod.ts" →
     ∀ fuel, fallbackHeader denoDir cwd fs (S fuel) modulePath =
             convertRemoteToLocalCache denoDir cwd fs fuel "https://deno.land/x/new/mod").
Proof.
  split; [|split; [|split]].
  - intros H fuel. by rewrite fallbackHeader_S, H.
  - intros H1 H2 fuel. by rewrite fallbackHeader_S, H1, H2.
  - intros target Hred. split; [intros fuel; by apply fallbackHeader_redirect|].
    intros v. split.
    + intros [[|fuel] H]; [done|].
      rewrite (fallbackHeader_redirect _ _ _ _ _ _ Hred) in H.
      destruct (stripExtNameDotTs fuel target) as [stripped| |] eqn:Hs; [|done..].
      exists stripped. split; by exists fuel.
    + intros (stripped & [n1 H1] & [n2 H2]). exists (S (n1 `max` n2)).
      rewrite (fallbackHeader_redirect _ _ _ _ _ _ Hred).
      rewrite (stripExtNameDotTs_mono n1 _ _ _ (Nat.le_max_l n1 n2) H1). cbn.
      by apply (convertRemoteToLocalCache_mono _ _ _ n2); [lia|].
  - intros Hred fuel. rewrite (fallbackHeader_redirect _ _ _ _ _ _ Hred).
    by rewrite stripExtNameDotTs_no_query.
Qed.

Lemma fallbackHeader_follows_moved_module :
  redirects fs_moved "/home/u/.deno/deps/https/deno.land/x/old/mod"
    "https://deno.land/x/new/mod.ts" ∧
  fallbackHeader "/home/u/.deno" "/" fs_moved 2
    "/home/u/.deno/deps/https/deno.land/x/old/mod" =
  Ret "/home/u/.deno/deps/https/deno.land/x/new/mod".
Proof.
  assert (redirects fs_moved "/home/u/.deno/deps/https/deno.land/x/old/mod"
            "https://deno.land/x/new/mod.ts") as Hred.
  { split; [vm_compute; reflexivity|].
    exists (JObject [("redirect_to", JString "https://deno.land/x/new/mod.ts")]).
    split; vm_compute; reflexivity. }
  split; [exact Hred|].
  destruct (fallbackHeader_algorithm "/home/u/.deno" "/" fs_moved
              "/home/u/.deno/deps/https/deno.land/x/old/mod") as (_ & _ & _ & H).
  rewrite (H Hred 1%nat). vm_compute. reflexivity.
Defined.

(** C10.  When the sidecar's [redirect_to] begins with neither [http://]
    nor [https://], [fallbackHeader] is [stripExtNameDotTs(redirect_to)] and
    nothing more: the file system, [DenoDir] and the remaining fuel play no
    part in the result, so the target is not mapped under [deps], is not
    checked for existence and is not resolved further. *)
Theorem fallbackHeader_non_remote_redirect
    (denoDir cwd : string) (fs : gmap string node)
    (modulePath target : string) (fuel : nat) :
  redirects fs modulePath target →
  startsWith target "http://" = false →
  startsWith target "https://" = false →
  fallbackHeader denoDir cwd fs (S fuel) modulePath = stripExtNameDotTs fuel target.
Proof.
  intros Hred H1 H2. rewrite (fallbackHeader_redirect _ _ _ _ _ _ Hred).
  destruct (stripExtNameDotTs fuel target) as [stripped| |] eqn:Hs; [cbn|done..].
  apply stripExtNameDotTs_prefix in Hs as [k ->].
  apply convertRemoteToLocalCache_local.
  - destruct (startsWith (str_take k target) "http://") eqn:E; [|done].
    apply startsWith_take in E. congruence.
  - destruct (startsWith (str_take k target) "https://") eqn:E; [|done].
    apply startsWith_take in E. congruence.
Qed.

Lemma fallbackHeader_returns_relative_target :
  redirects fs_local_target "/home/u/.deno/deps/https/deno.land/x/b/mod" "../c/mod.ts" ∧
  fallbackHeader "/home/u/.deno" "/" fs_local_target 1
    "/home/u/.deno/deps/https/deno.land/x/b/mod" = Ret "../c/mod".
Proof.
  assert (redirects fs_local_target "/home/u/.deno/deps/https/deno.land/x/b/mod"
            "../c/mod.ts") as Hred.
  { split; [vm_compute; reflexivity|].
    exists (JObject [("redirect_to", JString "../c/mod.ts")]).
    split; vm_compute; reflexivity. }
  split; [exact Hred|].
  by rewrite (fallbackHeader_non_remote_redirect "/home/u/.deno" "/" fs_local_target
                "/home/u/.deno/deps/https/deno.land/x/b/mod" "../c/mod.ts" 0%nat Hred
                eq_refl eq_refl).
Defined.

(** C8.  For a specifier that begins with [http://] or [https://],
    [convertRemoteToLocalCache] replaces [://] by [/], resolves the result
    under [<DenoDir>/deps] and hands that path to [fallbackHeader]; for any
    other specifier it is the identity.  With DenoDir [/home/u/.deno] and no
    redirect recorded, [https://deno.land/x/std/log/mod] gives
    [/home/u/.deno/deps/https/deno.land/x/std/log/mod]. *)
Theorem convertRemoteToLocalCache_mapping
    (denoDir cwd : string) (fs : gmap string node) (fuel : nat) :
  (∀ rest, convertRemoteToLocalCache denoDir cwd fs fuel ("http://" +:+ rest) =
           fallbackHeader denoDir cwd fs fuel
             (path_resolve cwd [denoDir; "deps"; "http/" +:+ rest])) ∧
  (∀ rest, convertRemoteToLocalCache denoDir cwd fs fuel ("https://" +:+ rest) =
           fallbackHeader denoDir cwd fs fuel
             (path_resolve cwd [denoDir; "deps"; "https/" +:+ rest])) ∧
  (∀ moduleName,
     startsWith moduleName "http://" = false →
     startsWith moduleName "https://" = false →
     convertRemoteToLocalCache denoDir cwd fs fuel moduleName = Ret moduleName) ∧
  (fs !! "/home/u/.deno/deps/https/deno.land/x/std/log/mod.ts.headers.json" = None →
     convertRemoteToLocalCache "/home/u/.deno" cwd fs (S fuel)
       "https://deno.land/x/std/log/mod" =
     Ret "/home/u/.deno/deps/https/deno.land/x/std/log/mod").
Proof.
  split; [|split; [|split]].
  - intros rest. rewrite convertRemoteToLocalCache_remote, replace_http; [done|].
    by rewrite (startsWith_app "http://" rest).
  - intros rest. rewrite convertRemoteToLocalCache_remote, replace_https; [done|].
    rewrite (startsWith_app "https://" rest). by destruct (startsWith _ _).
  - apply convertRemoteToLocalCache_local.
  - intros Hnone. rewrite convertRemoteToLocalCache_remote by reflexivity.
    change "https://deno.land/x/std/log/mod" with ("https://" +:+ "deno.land/x/std/log/mod").
    rewrite replace_https.
    assert (path_resolve cwd ["/home/u/.deno"; "deps"; "https/" +:+ "deno.land/x/std/log/mod"]
            = "/home/u/.deno/deps/https/deno.land/x/std/log/mod") as -> by reflexivity.
    rewrite fallbackHeader_S.
    assert (validPath "/home/u/.deno/deps/https/deno.land/x/std/log/mod"
            = "/home/u/.deno/deps/https/deno.land/x/std/log/mod.ts") as -> by reflexivity.
    destruct (existsSync fs _); [done|].
    unfold existsSync.
    change ("/home/u/.deno/deps/https/deno.land/x/std/log/mod.ts" +:+ ".headers.json")
      with "/home/u/.deno/deps/https/deno.land/x/std/log/mod.ts.headers.json".
    rewrite Hnone. rewrite bool_decide_false; [done|]. by intros [? ?].
Qed.

Lemma convertRemoteToLocalCache_std_log_mod :
  convertRemoteToLocalCache "/home/u/.deno" "/" ∅ 1 "https://deno.land/x/std/log/mod" =
  Ret "/home/u/.deno/deps/https/deno.land/x/std/log/mod".
Proof.
  destruct (convertRemoteToLocalCache_mapping "/home/u/.deno" "/" ∅ 0%nat) as (_ & _ & _ & H).
  apply H. reflexivity.
Defined.

(** ** Import map store *)

Lemma cacheKey_inj (filePath : string) (m m' : number) :
  cacheKey filePath m = cacheKey filePath m' → m = m'.
Proof.
  unfold cacheKey. intros H.
  apply (inj (String.app filePath)) in H. apply (inj (String.app "-")) in H.
  destruct m, m'. cbn in H. by rewrite H.
Qed.

(** The two ways a load succeeds: a hit leaves the store alone, a miss
    allocates the parsed document and records it under the key. *)
Lemma getImportMap_success
    (fs : gmap string node) (st st1 : store) (filePath : string) (l : nat) (m : number) :
  getImportMap fs st filePath = (Ret l, st1) →
  statSync_mtimeMs fs filePath = Ret m →
  (st1 = st ∧ importMapCache st !! cacheKey filePath m = Some l) ∨
  (importMapCache st !! cacheKey filePath m = None ∧ l = length (heap st) ∧
   ∃ doc, readFileSync fs filePath = Ret (JsonText doc) ∧
          st1 = {| heap := heap st ++ [doc];
                   importMapCache := <[cacheKey filePath m := l]> (importMapCache st) |}).
Proof.
  unfold getImportMap. intros H Hm. rewrite Hm in H.
  destruct (importMapCache st !! cacheKey filePath m) as [l0|] eqn:Hc.
  - left. by simplify_eq.
  - right. destruct (readFileSync fs filePath) as [[doc|]| |]; cbn in H; simplify_eq.
    eauto.
Qed.

Lemma getImportMap_grows (fs : gmap string node) (st : store) (filePath : string) :
  importMapCache st ⊆ importMapCache (getImportMap fs st filePath).2 ∧
  heap st `prefix_of` heap (getImportMap fs st filePath).2.
Proof.
  unfold getImportMap.
  destruct (statSync_mtimeMs fs filePath) as [m| |]; [|done..].
  destruct (importMapCache st !! cacheKey filePath m) eqn:Hc; [done|].
  destruct (bind _ _) as [doc| |]; cbn; try done.
  split; [by apply insert_subseteq | by apply prefix_app_r].
Qed.

Lemma getImportMap_wf (fs : gmap string node) (st : store) (filePath : string) :
  store_wf st → store_wf (getImportMap fs st filePath).2.
Proof.
  intros Hwf. unfold getImportMap.
  destruct (statSync_mtimeMs fs filePath) as [m| |]; [|done..].
  destruct (importMapCache st !! cacheKey filePath m) eqn:Hc; [done|].
  destruct (bind _ _) as [doc| |]; cbn; try done.
  intros key l. cbn. rewrite length_app. cbn.
  destruct (decide (cacheKey filePath m = key)) as [->|Hne].
  - rewrite lookup_insert_eq. intros [= <-]. lia.
  - rewrite lookup_insert_ne by done. intros H%Hwf. lia.
Qed.

(** C6 (as stated, refuted).  A document without an [imports] member is
    returned like any other, and a file whose text stopped being JSON is
    not even read when its path and modification time are already cached. *)
Lemma getImportMap_accepts_document_without_imports :
  get_property (JObject []) "imports" = Ret None ∧
  (getImportMap fs_no_imports empty_store "/p/import_map.json").1 = Ret 0%nat ∧
  heap (getImportMap fs_no_imports empty_store "/p/import_map.json").2 !! 0%nat
    = Some (JObject []) ∧
  getImportMap fs_import_map_garbled
    (getImportMap fs_import_map empty_store "/p/import_map.json").2
    "/p/import_map.json"
  = (Ret 0%nat, (getImportMap fs_import_map empty_store "/p/import_map.json").2).
Proof. repeat split; vm_compute; reflexivity. Qed.

(** C6 (amended).  [getImportMap] throws [ENOENT] when nothing exists at
    the path.  When no value is cached for the file's path and modification
    time, it throws [SyntaxError] if the text is not JSON, and otherwise
    returns a reference to the parsed document, whatever its shape.  When a
    value is cached for them, that value is returned and the file is not
    read. *)
Theorem getImportMap_outcomes
    (fs : gmap string node) (st : store) (filePath : string) :
  (fs !! filePath = None → getImportMap fs st filePath = (Throw ENOENT, st)) ∧
  (∀ mtimeMs,
     fs !! filePath = Some (File mtimeMs NotJson) →
     importMapCache st !! cacheKey filePath mtimeMs = None →
     getImportMap fs st filePath = (Throw SyntaxError, st)) ∧
  (∀ mtimeMs doc,
     fs !! filePath = Some (File mtimeMs (JsonText doc)) →
     importMapCache st !! cacheKey filePath mtimeMs = None →
     ∃ st', getImportMap fs st filePath = (Ret (length (heap st)), st') ∧
            heap st' !! length (heap st) = Some doc) ∧
  (∀ mtimeMs text l,
     fs !! filePath = Some (File mtimeMs text) →
     importMapCache st !! cacheKey filePath mtimeMs = Some l →
     getImportMap fs st filePath = (Ret l, st)).
Proof.
  unfold getImportMap, statSync_mtimeMs, readFileSync.
  split; [|split; [|split]].
  - by intros ->.
  - by intros mtimeMs -> ->.
  - intros mtimeMs doc -> ->. cbn. eexists. split; [done|]. cbn.
    by rewrite lookup_app_r, Nat.sub_diag.
  - by intros mtimeMs text l -> ->.
Qed.

Lemma getImportMap_missing_file :
  getImportMap ∅ empty_store "/p/import_map.json" = (Throw ENOENT, empty_store).
Proof.
  apply (getImportMap_outcomes ∅ empty_store "/p/import_map.json"). reflexivity.
Defined.

Lemma run_loads_grows (st : store) (loads : list (gmap string node * string)) :
  importMapCache st ⊆ importMapCache (run_loads st loads).
Proof.
  revert st. induction loads as [|[fs filePath] loads IH]; intros st; [done|].
  cbn. etrans; [|apply IH]. apply getImportMap_grows.
Qed.

(** C9 (as stated, refuted).  A changed modification time does not always
    give a freshly parsed value.  The file is loaded, touched and loaded,
    then edited and given its first modification time again: the third
    load, at a time that differs from the one of the load before it,
    returns the reference of the first load, parses nothing, and the
    edited document is in no heap cell. *)
Lemma getImportMap_earlier_time_returns_earlier_value :
  statSync_mtimeMs fs_import_map_reverted "/p/import_map.json"
    ≠ statSync_mtimeMs fs_import_map_touched "/p/import_map.json" ∧
  (getImportMap fs_import_map empty_store "/p/import_map.json").1 = Ret 0%nat ∧
  (getImportMap fs_import_map_touched
     (getImportMap fs_import_map empty_store "/p/import_map.json").2
     "/p/import_map.json").1 = Ret 1%nat ∧
  getImportMap fs_import_map_reverted
    (getImportMap fs_import_map_touched
       (getImportMap fs_import_map empty_store "/p/import_map.json").2
       "/p/import_map.json").2
    "/p/import_map.json"
  = (Ret 0%nat,
     (getImportMap fs_import_map_touched
        (getImportMap fs_import_map empty_store "/p/import_map.json").2
        "/p/import_map.json").2) ∧
  heap (getImportMap fs_import_map_touched
          (getImportMap fs_import_map empty_store "/p/import_map.json").2
          "/p/import_map.json").2
  = [import_map_doc; import_map_doc].
Proof.
  split; [vm_compute; discriminate|]. repeat split; vm_compute; reflexivity.
Qed.

(** C9 (amended).  After a successful load of [filePath], a second load at
    the same modification time returns the same reference and leaves heap
    and cache as they are, whatever the file now contains.  A load at a
    changed modification time whose cache key has no entry yet parses the
    file into a new heap cell, caches it under the new key, and keeps the
    earlier entry and its value.  A load at a modification time whose key
    has an entry returns the reference cached under it and parses nothing.
    No load, and no sequence of loads, removes an entry. *)
Theorem getImportMap_cache
    (fs fs' : gmap string node) (st st1 : store) (filePath : string)
    (l : nat) (mtimeMs : number) :
  store_wf st →
  statSync_mtimeMs fs filePath = Ret mtimeMs →
  getImportMap fs st filePath = (Ret l, st1) →
  (statSync_mtimeMs fs' filePath = Ret mtimeMs →
     getImportMap fs' st1 filePath = (Ret l, st1)) ∧
  (∀ mtimeMs' doc',
     fs' !! filePath = Some (File mtimeMs' (JsonText doc')) →
     mtimeMs' ≠ mtimeMs →
     importMapCache st !! cacheKey filePath mtimeMs' = None →
     ∃ l' st2,
       getImportMap fs' st1 filePath = (Ret l', st2) ∧
       l' ≠ l ∧ heap st1 !! l' = None ∧ heap st2 !! l' = Some doc' ∧
       heap st2 !! l = heap st1 !! l ∧
       importMapCache st2 !! cacheKey filePath mtimeMs' = Some l' ∧
       importMapCache st2 !! cacheKey filePath mtimeMs = Some l) ∧
  (∀ mtimeMs' l0,
     statSync_mtimeMs fs' filePath = Ret mtimeMs' →
     importMapCache st1 !! cacheKey filePath mtimeMs' = Some l0 →
     getImportMap fs' st1 filePath = (Ret l0, st1)) ∧
  (∀ st0 loads, importMapCache st0 ⊆ importMapCache (run_loads st0 loads)).
Proof.
  intros Hwf Hm Hload.
  assert (store_wf st1) as Hwf1.
  { pose proof (getImportMap_wf fs st filePath Hwf) as H. by rewrite Hload in H. }
  assert (importMapCache st1 !! cacheKey filePath mtimeMs = Some l) as Hkey.
  { destruct (getImportMap_success _ _ _ _ _ _ Hload Hm)
      as [[-> ?]|(_ & _ & doc & _ & ->)]; [done|]. cbn. apply lookup_insert_eq. }
  split; [|split; [|split]].
  - intros Hm'. unfold getImportMap. by rewrite Hm', Hkey.
  - intros mtimeMs' doc' Hfile Hne Hfresh.
    assert (importMapCache st1 !! cacheKey filePath mtimeMs' = None) as Hfresh1.
    { destruct (getImportMap_success _ _ _ _ _ _ Hload Hm)
        as [[-> ?]|(_ & _ & doc & _ & ->)]; [done|]. cbn.
      rewrite lookup_insert_ne; [done|]. intros E. by apply cacheKey_inj in E. }
    unfold getImportMap, statSync_mtimeMs, readFileSync. rewrite Hfile, Hfresh1. cbn.
    pose proof (Hwf1 _ _ Hkey) as Hl.
    eexists _, _. split; [done|]. cbn. repeat split.
    + lia.
    + by apply lookup_ge_None.
    + by rewrite lookup_app_r, Nat.sub_diag.
    + by rewrite lookup_app_l.
    + apply lookup_insert_eq.
    + rewrite lookup_insert_ne; [done|]. intros E. by apply cacheKey_inj in E.
  - intros mtimeMs' l0 Hm' Hhit. unfold getImportMap. by rewrite Hm', Hhit.
  - apply run_loads_grows.
Qed.

(** The hypothesis [store_wf] of the theorem holds of every store a process
    can reach. *)
Lemma run_loads_wf (loads : list (gmap string node * string)) :
  store_wf (run_loads empty_store loads).
Proof.
  assert (∀ st, store_wf st → store_wf (run_loads st loads)) as H.
  { induction loads as [|[fs filePath] loads IH]; intros st Hwf; [done|].
    cbn. apply IH. by apply getImportMap_wf. }
  apply H. by intros key l.
Qed.

Lemma getImportMap_touched_file_is_parsed_again :
  getImportMap fs_import_map
    (getImportMap fs_import_map empty_store "/p/import_map.json").2
    "/p/import_map.json"
  = (Ret 0%nat, (getImportMap fs_import_map empty_store "/p/import_map.json").2) ∧
  ∃ l' st2,
    getImportMap fs_import_map_touched
      (getImportMap fs_import_map empty_store "/p/import_map.json").2
      "/p/import_map.json" = (Ret l', st2) ∧
    l' ≠ 0%nat ∧ heap st2 !! l' = Some import_map_doc.
Proof.
  destruct (getImportMap_cache fs_import_map fs_import_map empty_store
              (getImportMap fs_import_map empty_store "/p/import_map.json").2
              "/p/import_map.json" 0%nat (Number "1573000000000.1234")) as (Hsame & _ & _ & _).
  { by intros key l'. }
  { reflexivity. }
  { vm_compute; reflexivity. }
  destruct (getImportMap_cache fs_import_map fs_import_map_touched empty_store
              (getImportMap fs_import_map empty_store "/p/import_map.json").2
              "/p/import_map.json" 0%nat (Number "1573000000000.1234")) as (_ & Hnew & _ & _).
  { by intros key l'. }
  { reflexivity. }
  { vm_compute; reflexivity. }
  split; [apply Hsame; reflexivity|].
  destruct (Hnew (Number "1573000060000.5678") import_map_doc) as (l' & st2 & H1 & H2 & _ & H3 & _).
  { reflexivity. }
  { done. }
  { reflexivity. }
  eauto.
Defined.

(** ** Import map substitution *)

Lemma insert_index_perm (k : N * string) (sorted : list (N * string)) :
  insert_index k sorted ≡ₚ k :: sorted.
Proof.
  induction sorted as [|h t IH]; cbn; [done|].
  case_decide; [done|]. rewrite IH. apply Permutation_swap.
Qed.

Lemma sort_indices_perm (indices : list (N * string)) :
  foldr insert_index [] indices ≡ₚ indices.
Proof.
  induction indices as [|k indices IH]; cbn; [done|].
  by rewrite insert_index_perm, IH.
Qed.

Lemma filter_all {A : Type} (P : A → Prop) `{!∀ x, Decision (P x)} (l : list A) :
  (∀ x, x ∈ l → P x) → filter P l = l.
Proof.
  induction l as [|x l IH]; intros Hall; [done|].
  rewrite filter_cons_True by (apply Hall; left). f_equal. apply IH.
  intros y Hy. apply Hall. by right.
Qed.

Lemma own_names_subseteq {A : Type} (members : list (string * A)) (k : string) :
  k ∈ own_names members → k ∈ members.*1.
Proof.
  induction members as [|[k0 v] members IH]; cbn; [done|].
  rewrite !elem_of_cons, list_elem_of_filter. intros [?|[_ ?]]; auto.
Qed.

Lemma own_names_NoDup {A : Type} (members : list (string * A)) :
  NoDup members.*1 → own_names members = members.*1.
Proof.
  induction members as [|[k0 v] members IH]; cbn; [done|].
  intros [Hk Hnd]%NoDup_cons. f_equal. rewrite IH by done.
  apply filter_all. intros k Hin ->. done.
Qed.

(** Every key that [Object.keys] lists is a name written in the document. *)
Lemma Object_keys_subseteq {A : Type} (members : list (string * A)) (k : string) :
  k ∈ Object_keys members → k ∈ members.*1.
Proof.
  unfold Object_keys. rewrite elem_of_app. intros [H|H].
  - apply own_names_subseteq. apply list_elem_of_fmap in H as ([n k'] & -> & Hin).
    rewrite sort_indices_perm in Hin. apply list_elem_of_omap in Hin as (k'' & Hk & Hn).
    destruct (array_index k''); by simplify_eq/=.
  - apply own_names_subseteq. by apply list_elem_of_filter in H as [_ H].
Qed.

(** Without array indices among the names, [Object.keys] is the order of
    first writing. *)
Lemma Object_keys_no_index {A : Type} (members : list (string * A)) :
  (∀ k, k ∈ members.*1 → array_index k = None) →
  Object_keys members = own_names members.
Proof.
  intros Hnone. unfold Object_keys.
  assert (∀ k, k ∈ own_names members → array_index k = None) as H
    by (intros k Hk; by apply Hnone, own_names_subseteq).
  revert H. generalize (own_names members) as names.
  intros names H. rewrite filter_all by done.
  replace (omap _ names) with (@nil (N * string)); [done|].
  symmetry. induction names as [|k names IH]; [done|]. cbn.
  rewrite (H k) by left. cbn. apply IH. intros k' Hk'. apply H. by right.
Qed.

Lemma last_member_is_Some {A : Type} (members : list (string * A)) (k : string) :
  k ∈ members.*1 → is_Some (last_member members k).
Proof.
  induction members as [|[k0 v] members IH]; cbn; [by intros ?%elem_of_nil|].
  rewrite elem_of_cons. intros [->|Hin].
  - destruct (last_member members k0); [done|]. by rewrite decide_True.
  - destruct (IH Hin) as [w ->]. done.
Qed.

Lemma transform_loop_no_match
    (imports : list (string * string)) (importKeys : list string) (moduleName : string) :
  (∀ k, k ∈ importKeys → startsWith moduleName k = false) →
  transform_loop imports importKeys moduleName = moduleName.
Proof.
  induction importKeys as [|key rest IH]; intros H; [done|]. cbn.
  rewrite (H key) by left. apply IH. intros k Hk. apply H. by right.
Qed.

Lemma transform_loop_first_match
    (imports : list (string * string)) (before after : list string)
    (key moduleName : string) :
  (∀ k, k ∈ before → startsWith moduleName k = false) →
  startsWith moduleName key = true →
  transform_loop imports (before ++ key :: after) moduleName =
    default "undefined" (last_member imports key)
      +:+ str_drop (String.length key) moduleName.
Proof.
  induction before as [|k0 before IH]; intros Hbefore Hkey; cbn.
  - rewrite Hkey, substring_from_drop. unfold str_length. by rewrite Nat2Z.id.
  - rewrite (Hbefore k0) by left. apply IH; [|done].
    intros k Hk. apply Hbefore. by right.
Qed.

(** C5 (as stated, refuted).  In the document the key ["10"] is written
    before ["1"] and is a prefix of ["10x"], yet the substitution uses
    ["1"]: [Object.keys] lists array-index names first, in ascending order. *)
Lemma transformFromImportMap_not_document_order :
  (imports {| imports := [("10", "A/"); ("1", "B/")] |}).*1 = ["10"; "1"] ∧
  startsWith "10x" "10" = true ∧
  Object_keys (imports {| imports := [("10", "A/"); ("1", "B/")] |}) = ["1"; "10"] ∧
  transformFromImportMap {| imports := [("10", "A/"); ("1", "B/")] |} "10x" = "B/0x" ∧
  transformFromImportMap {| imports := [("10", "A/"); ("1", "B/")] |} "10x" ≠ "A/x".
Proof. repeat split; try reflexivity. vm_compute. discriminate. Qed.

(** C5 (amended).  The substitution scans the keys in the order of
    [Object.keys]: the first key in that order that is a literal prefix of
    the specifier wins, whether or not a later key is a longer prefix; the
    prefix is replaced by the key's value and the rest of the specifier is
    kept as it is.  A specifier of which no key is a prefix is returned
    unchanged.  The order of [Object.keys] is the document order whenever no
    key is an array index (the keys being distinct).  Key ["std/"] with
    value ["https://deno.land/std/"] turns ["std/http/mod.ts"] into
    ["https://deno.land/std/http/mod.ts"]. *)
Theorem transformFromImportMap_first_match
    (importMap : IImportMap) (moduleName : string) :
  (∀ before key after rest,
     Object_keys (imports importMap) = before ++ key :: after →
     (∀ k, k ∈ before → startsWith moduleName k = false) →
     moduleName = key +:+ rest →
     ∃ value, last_member (imports importMap) key = Some value ∧
              transformFromImportMap importMap moduleName = value +:+ rest) ∧
  ((∀ k, k ∈ (imports importMap).*1 → startsWith moduleName k = false) →
     transformFromImportMap importMap moduleName = moduleName) ∧
  ((∀ k, k ∈ (imports importMap).*1 → array_index k = None) →
   NoDup (imports importMap).*1 →
     Object_keys (imports importMap) = (imports importMap).*1) ∧
  transformFromImportMap {| imports := [("std/", "https://deno.land/std/")] |}
    "std/http/mod.ts" = "https://deno.land/std/http/mod.ts" ∧
  transformFromImportMap
    {| imports := [("std/", "https://deno.land/std/");
                   ("std/http/", "https://example.com/http/")] |}
    "std/http/mod.ts" = "https://deno.land/std/http/mod.ts".
Proof.
  split; [|split; [|split; [|split]]]; try reflexivity.
  - intros before key after rest Hkeys Hbefore ->.
    assert (key ∈ Object_keys (imports importMap)) as Hin
      by (rewrite Hkeys; set_solver).
    apply Object_keys_subseteq, last_member_is_Some in Hin as [value Hvalue].
    exists value. split; [done|]. unfold transformFromImportMap.
    rewrite Hkeys, transform_loop_first_match by (done || apply startsWith_app).
    by rewrite Hvalue, str_drop_app.
  - intros H. apply transform_loop_no_match. intros k Hk.
    by apply H, Object_keys_subseteq.
  - intros Hnone Hnd. by rewrite Object_keys_no_index, own_names_NoDup.
Qed.

Lemma transformFromImportMap_passes_relative_specifier :
  transformFromImportMap {| imports := [("std/", "https://deno.land/std/")] |} "./util.ts"
  = "./util.ts".
Proof.
  apply (transformFromImportMap_first_match
           {| imports := [("std/", "https://deno.land/std/")] |} "./util.ts").
  intros k Hk. cbn in Hk. apply list_elem_of_singleton in Hk as ->. reflexivity.
Defined.

(** * Further properties *)

(** ** More on strings *)

Lemma length_append_str (a b : string) :
  String.length (a +:+ b) = (String.length a + String.length b)%nat.
Proof. induction a as [|c a IH]; [done|]. rewrite app_String. cbn. by rewrite IH. Qed.

Lemma str_take_append (a b : string) : str_take (String.length a) (a +:+ b) = a.
Proof.
  induction a as [|c a IH]; [by destruct b|].
  rewrite app_String. cbn. by rewrite IH.
Qed.

Lemma str_take_add (j i : nat) (s : string) :
  str_take (j + i) s = str_take j s +:+ str_take i (str_drop j s).
Proof.
  revert s; induction j as [|j IH]; intros s.
  - by rewrite str_drop_0.
  - destruct s as [|c s]; [by destruct i|]. cbn. by rewrite IH.
Qed.

Lemma endsWith_append (x p : string) : endsWith (x +:+ p) p = true.
Proof.
  unfold endsWith. rewrite length_append_str. rewrite decide_True by lia.
  apply bool_decide_eq_true.
  replace (String.length x + String.length p - String.length p)%nat
    with (String.length x) by lia.
  apply str_drop_app.
Qed.

Lemma endsWith_app_r (a b p : string) :
  endsWith b p = true → endsWith (a +:+ b) p = true.
Proof.
  intros H%endsWith_split. rewrite H, <- app_assoc_str. apply endsWith_append.
Qed.

Lemma startsWith_trans (s k2 k1 : string) :
  startsWith s k2 = true → startsWith k2 k1 = true → startsWith s k1 = true.
Proof.
  revert s k2; induction k1 as [|c k1 IH]; intros s k2 H2 H1; [done|].
  destruct k2 as [|b k2]; [done|]. destruct s as [|a s]; [done|].
  cbn in *. repeat case_decide; try done; subst; [by eapply IH|done].
Qed.

(** The first [?] of [s?q], for [s] without [?], is right after [s]. *)
Lemma indexOf_first_query (s q : string) :
  indexOf s "?" = -1 →
  indexOf (s +:+ "?" +:+ q) "?" = Z.of_nat (String.length s).
Proof.
  induction s as [|c s IH]; intros H; [done|].
  rewrite indexOf_String in H. rewrite app_String, indexOf_String.
  cbn [startsWith] in *. case_decide; [done|].
  destruct (decide (indexOf s "?" = -1)) as [Hs|Hs].
  - rewrite IH by done. rewrite decide_False by lia. cbn [String.length]. lia.
  - destruct (indexOf_range s "?"); lia.
Qed.

(** ** More on the specifier normalizer *)

(** One iteration of the loop, with positions as natural numbers: [name]
    is [moduleName] without its first [j] characters. *)
Lemma getModuleWithQueryString_loop_step
    (fuel : nat) (moduleName : string) (i j : nat) :
  getModuleWithQueryString_loop (S fuel) moduleName (Z.of_nat i) (str_drop j moduleName) =
    if endsWith (str_take i (str_drop j moduleName)) ".ts"
    then Ret (Some (str_take (j + i) moduleName))
    else getModuleWithQueryString_loop fuel moduleName (Z.of_nat i)
           (str_drop (j + S i) moduleName).
Proof.
  rewrite getModuleWithQueryString_loop_S by lia.
  rewrite !substring_0, substring_from_drop, str_drop_drop, Nat2Z.id.
  replace (Z.to_nat (Z.of_nat i + 1)) with (S i) by lia.
  destruct (endsWith _ _) eqn:He; [|done].
  apply endsWith_length in He. rewrite length_str_take, length_str_drop in He.
  cbn in He. unfold str_length. rewrite length_str_drop.
  do 3 f_equal. lia.
Qed.

Lemma getModuleWithQueryString_loop_never_throws
    (fuel : nat) (moduleName : string) (index : Z) (name : string) (e : error) :
  getModuleWithQueryString_loop fuel moduleName index name ≠ Throw e.
Proof.
  destruct (decide (index = -1)) as [->|Hi].
  { by rewrite getModuleWithQueryString_loop_absent. }
  revert name. induction fuel as [|fuel IH]; intros name.
  - by rewrite getModuleWithQueryString_loop_0.
  - rewrite getModuleWithQueryString_loop_S by done. by destruct (endsWith _ _).
Qed.

Lemma stripExtNameDotTs_never_throws (fuel : nat) (moduleName : string) (e : error) :
  stripExtNameDotTs fuel moduleName ≠ Throw e.
Proof.
  unfold stripExtNameDotTs, getModuleWithQueryString.
  destruct (getModuleWithQueryString_loop _ _ _ _) as [r|e'|] eqn:Hr; cbn.
  - destruct (truthy r); [done|]. by destruct (negb _).
  - by apply getModuleWithQueryString_loop_never_throws in Hr.
  - done.
Qed.

(** X1.  Whatever [stripExtNameDotTs] returns is a prefix of its argument:
    the normalizer only ever cuts characters off the end. *)
Theorem stripExtNameDotTs_returns_prefix (fuel : nat) (moduleName t : string) :
  stripExtNameDotTs fuel moduleName = Ret t →
  ∃ rest, moduleName = t +:+ rest.
Proof.
  intros [k ->]%stripExtNameDotTs_prefix.
  exists (str_drop k moduleName). by rewrite str_take_drop.
Qed.

Lemma stripExtNameDotTs_returns_prefix_of_query :
  stripExtNameDotTs 1 "a/b.ts?v=2" = Ret "a/b.ts" ∧
  ∃ rest, "a/b.ts?v=2" = "a/b.ts" +:+ rest.
Proof.
  split; [reflexivity|].
  apply (stripExtNameDotTs_returns_prefix 1 "a/b.ts?v=2" "a/b.ts"). reflexivity.
Defined.

Lemma getModuleWithQueryString_loop_hit
    (fuel : nat) (moduleName : string) (i j : nat) (r : option string) :
  getModuleWithQueryString_loop fuel moduleName (Z.of_nat i) (str_drop j moduleName) = Ret r →
  ∃ t, r = Some t ∧ endsWith t ".ts" = true.
Proof.
  revert j. induction fuel as [|fuel IH]; intros j.
  { by rewrite getModuleWithQueryString_loop_0 by lia. }
  rewrite getModuleWithQueryString_loop_step.
  destruct (endsWith _ _) eqn:He; [|apply IH].
  intros [= <-]. eexists. split; [done|].
  rewrite str_take_add. by apply endsWith_app_r.
Qed.

(** X2.  When the specifier contains a [?], whatever [stripExtNameDotTs]
    returns is non-empty and ends with [.ts]: with a query in the specifier
    the extension strip is never reached. *)
Theorem stripExtNameDotTs_query_result_ends_with_ts
    (fuel : nat) (moduleName t : string) :
  indexOf moduleName "?" ≠ -1 →
  stripExtNameDotTs fuel moduleName = Ret t →
  endsWith t ".ts" = true ∧ t ≠ "".
Proof.
  intros Hq. unfold stripExtNameDotTs.
  destruct (getModuleWithQueryString fuel moduleName) as [r| |] eqn:Hr; [cbn|done..].
  destruct (getModuleWithQueryString_returns _ _ _ Hq Hr) as (k & -> & Hk).
  unfold getModuleWithQueryString in Hr.
  destruct (indexOf_range moduleName "?") as [?|Hge]; [done|].
  rewrite <- (Z2Nat.id _ Hge), <- (str_drop_0 moduleName) in Hr at 1.
  rewrite str_drop_0 in Hr at 1.
  apply (getModuleWithQueryString_loop_hit _ _ _ 0) in Hr as (t' & [= <-] & He).
  cbn. rewrite bool_decide_false by done. cbn. by intros [= <-].
Qed.

Lemma stripExtNameDotTs_query_result_ends_with_ts_late_hit :
  indexOf "abcd?x.tsyy" "?" = 4 ∧
  stripExtNameDotTs 2 "abcd?x.tsyy" = Ret "abcd?x.ts" ∧
  endsWith "abcd?x.ts" ".ts" = true ∧ "abcd?x.ts" ≠ "".
Proof.
  split; [reflexivity|]. split; [reflexivity|].
  apply (stripExtNameDotTs_query_result_ends_with_ts 2 "abcd?x.tsyy" "abcd?x.ts");
    [vm_compute; congruence | reflexivity].
Defined.

(** X3.  For every specifier [stem?query] whose [stem] has no [?] and ends
    with [.ts], [stripExtNameDotTs] returns [stem]: the query is dropped at
    the first [?] and the extension is kept. *)
Theorem stripExtNameDotTs_cuts_query (fuel : nat) (stem query : string) :
  indexOf stem "?" = -1 →
  endsWith stem ".ts" = true →
  stripExtNameDotTs (S fuel) (stem +:+ "?" +:+ query) = Ret stem.
Proof.
  intros Hq He. unfold stripExtNameDotTs, getModuleWithQueryString.
  rewrite indexOf_first_query by done.
  rewrite <- (str_drop_0 (stem +:+ "?" +:+ query)) at 2.
  rewrite getModuleWithQueryString_loop_step.
  rewrite str_drop_0, str_take_append, He. cbn.
  rewrite str_take_append. rewrite bool_decide_false; [done|].
  intros ->. done.
Qed.

Lemma stripExtNameDotTs_cuts_query_of_remote_module :
  stripExtNameDotTs 1 ("https://deno.land/x/a/mod.ts" +:+ "?" +:+ "v=1&dev")
  = Ret "https://deno.land/x/a/mod.ts".
Proof.
  apply (stripExtNameDotTs_cuts_query 0 "https://deno.land/x/a/mod.ts" "v=1&dev");
    reflexivity.
Defined.

Lemma getModuleWithQueryString_loop_scan (moduleName : string) (i k : nat) :
  ∀ j0 fuel,
    (∀ k', (k' < k)%nat → block_probe moduleName i (j0 + k') = false) →
    block_probe moduleName i (j0 + k) = true →
    getModuleWithQueryString_loop (S (k + fuel)) moduleName (Z.of_nat i)
      (str_drop (j0 * S i) moduleName)
    = Ret (Some (str_take ((j0 + k) * S i + i) moduleName)).
Proof.
  unfold block_probe. induction k as [|k IH]; intros j0 fuel Hmiss Hhit.
  - rewrite getModuleWithQueryString_loop_step.
    rewrite Nat.add_0_r in Hhit. by rewrite Hhit, Nat.add_0_r.
  - rewrite getModuleWithQueryString_loop_step.
    pose proof (Hmiss 0%nat ltac:(lia)) as H0. rewrite Nat.add_0_r in H0. rewrite H0.
    replace (j0 * S i + S i)%nat with (S j0 * S i)%nat by lia.
    replace (j0 + S k)%nat with (S j0 + k)%nat in * by lia.
    apply IH; [|done]. intros k' Hk'.
    replace (S j0 + k')%nat with (j0 + S k')%nat by lia. apply Hmiss. lia.
Qed.

Lemma getModuleWithQueryString_loop_short (moduleName : string) (i k : nat) :
  ∀ j0,
    (∀ k', (k' < k)%nat → block_probe moduleName i (j0 + k') = false) →
    getModuleWithQueryString_loop k moduleName (Z.of_nat i)
      (str_drop (j0 * S i) moduleName)
    = OutOfFuel.
Proof.
  unfold block_probe. induction k as [|k IH]; intros j0 Hmiss.
  - by rewrite getModuleWithQueryString_loop_0 by lia.
  - rewrite getModuleWithQueryString_loop_step.
    pose proof (Hmiss 0%nat ltac:(lia)) as H0. rewrite Nat.add_0_r in H0. rewrite H0.
    replace (j0 * S i + S i)%nat with (S j0 * S i)%nat by lia.
    apply IH. intros k' Hk'.
    replace (S j0 + k')%nat with (j0 + S k')%nat by lia. apply Hmiss. lia.
Qed.

(** X4.  How the loop of [getModuleWithQueryString] scans a specifier whose
    first [?] is at position [i]: it looks at the specifier in steps of
    [i + 1] characters and tests, at each step, whether the next [i]
    characters end with [.ts].  If the test first succeeds at step [k], the
    call needs exactly [k + 1] iterations and [stripExtNameDotTs] returns
    the first [k * (i + 1) + i] characters of the specifier; positions of
    later [?] play no part. *)
Theorem stripExtNameDotTs_block_scan (moduleName : string) (i k : nat) :
  indexOf moduleName "?" = Z.of_nat i →
  (∀ k', (k' < k)%nat → block_probe moduleName i k' = false) →
  block_probe moduleName i k = true →
  (∀ fuel, stripExtNameDotTs (S (k + fuel)) moduleName
           = Ret (str_take (k * S i + i) moduleName)) ∧
  (∀ fuel, (fuel ≤ k)%nat → stripExtNameDotTs fuel moduleName = OutOfFuel).
Proof.
  intros Hi Hmiss Hhit. split.
  - intros fuel. unfold stripExtNameDotTs, getModuleWithQueryString. rewrite Hi.
    pose proof (getModuleWithQueryString_loop_scan moduleName i k 0 fuel) as H.
    cbn [Nat.mul Nat.add] in H. rewrite str_drop_0 in H. rewrite H by done. cbn.
    rewrite bool_decide_false; [done|].
    unfold block_probe in Hhit. apply endsWith_length in Hhit.
    rewrite length_str_take, length_str_drop in Hhit. cbn in Hhit.
    intros E%(f_equal String.length). rewrite length_str_take in E. cbn in E. lia.
  - intros fuel Hle. unfold stripExtNameDotTs, getModuleWithQueryString. rewrite Hi.
    pose proof (getModuleWithQueryString_loop_short moduleName i fuel 0) as H.
    cbn [Nat.mul Nat.add] in H. rewrite str_drop_0 in H. rewrite H; [done|].
    intros k' Hk'. apply Hmiss. lia.
Qed.

Lemma stripExtNameDotTs_block_scan_second_step :
  indexOf "abcd?x.tsyy?z" "?" = 4 ∧
  stripExtNameDotTs 2 "abcd?x.tsyy?z" = Ret "abcd?x.ts" ∧
  stripExtNameDotTs 1 "abcd?x.tsyy?z" = OutOfFuel.
Proof.
  split; [reflexivity|].
  destruct (stripExtNameDotTs_block_scan "abcd?x.tsyy?z" 4 1) as [H1 H2].
  - reflexivity.
  - intros [|k'] Hk'; [reflexivity|lia].
  - reflexivity.
  - split; [apply (H1 0%nat) | apply (H2 1%nat); lia].
Defined.

(** X5.  A specifier whose first [?] is among its first three characters
    makes [stripExtNameDotTs] loop forever, whether or not [.ts] occurs in
    it: the pieces the loop tests are too short to end with [.ts]. *)
Theorem stripExtNameDotTs_early_query_diverges (moduleName : string) :
  0 ≤ indexOf moduleName "?" < 3 →
  diverges (λ fuel, stripExtNameDotTs fuel moduleName).
Proof.
  intros Hi fuel. unfold stripExtNameDotTs, getModuleWithQueryString.
  rewrite <- (Z2Nat.id (indexOf moduleName "?")) by lia.
  pose proof (getModuleWithQueryString_loop_short moduleName
                (Z.to_nat (indexOf moduleName "?")) fuel 0) as H.
  cbn [Nat.mul Nat.add] in H. rewrite str_drop_0 in H. rewrite H; [done|].
  intros k' _. unfold block_probe. destruct (endsWith _ _) eqn:He; [|done].
  apply endsWith_length in He. rewrite length_str_take in He. cbn in He. lia.
Qed.

Lemma stripExtNameDotTs_early_query_diverges_with_ts :
  indexOf "a?b.ts" "?" = 1 ∧ stripExtNameDotTs 1000 "a?b.ts" = OutOfFuel.
Proof.
  split; [reflexivity|].
  apply (stripExtNameDotTs_early_query_diverges "a?b.ts"). vm_compute.
  split; congruence.
Defined.

(** ** More on the redirect resolver *)

(** X6.  When nothing exists at the checked path and the sidecar is there
    but its text is not JSON, [fallbackHeader] throws the [SyntaxError] of
    [JSON.parse]: the call is not guarded. *)
Theorem fallbackHeader_garbled_sidecar_throws
    (denoDir cwd : string) (fs : gmap string node)
    (modulePath : string) (mtimeMs : number) (fuel : nat) :
  existsSync fs (validPath modulePath) = false →
  fs !! (validPath modulePath +:+ ".headers.json") = Some (File mtimeMs NotJson) →
  fallbackHeader denoDir cwd fs (S fuel) modulePath = Throw SyntaxError.
Proof.
  intros Hno Hside. rewrite fallbackHeader_S, Hno.
  unfold existsSync, readFileSync. rewrite Hside.
  rewrite bool_decide_true by done. reflexivity.
Qed.

Lemma fallbackHeader_garbled_sidecar_throws_sample :
  fallbackHeader "/home/u/.deno" "/" fs_garbled_sidecar 1
    "/home/u/.deno/deps/https/deno.land/x/g/mod" = Throw SyntaxError.
Proof.
  apply (fallbackHeader_garbled_sidecar_throws "/home/u/.deno" "/" fs_garbled_sidecar
           "/home/u/.deno/deps/https/deno.land/x/g/mod"
           (Number "1573000000000.1234") 0);
    vm_compute; reflexivity.
Defined.

(** X7.  When nothing exists at the checked path and the sidecar is a JSON
    document whose [redirect_to] is not a string (it is missing, or the
    document is [null], or the value is of another type), [fallbackHeader]
    throws a [TypeError]. *)
Theorem fallbackHeader_sidecar_without_target_throws
    (denoDir cwd : string) (fs : gmap string node)
    (modulePath : string) (headers : json) (fuel : nat) :
  existsSync fs (validPath modulePath) = false →
  readFileSync fs (validPath modulePath +:+ ".headers.json") = Ret (JsonText headers) →
  (∀ target, get_property headers "redirect_to" ≠ Ret (Some (JString target))) →
  fallbackHeader denoDir cwd fs (S fuel) modulePath = Throw TypeError.
Proof.
  intros Hno Hread Hnot. rewrite fallbackHeader_S, Hno.
  rewrite (readFileSync_exists _ _ _ Hread), Hread. cbn.
  destruct headers as [| | | | |members]; try reflexivity.
  cbn in *. destruct (last_member members "redirect_to") as [[| | |target| |]|];
    try reflexivity.
  by destruct (Hnot target).
Qed.

Lemma fallbackHeader_sidecar_without_target_throws_sample :
  fallbackHeader "/home/u/.deno" "/" fs_sidecar_without_target 1
    "/home/u/.deno/deps/https/deno.land/x/h/mod" = Throw TypeError.
Proof.
  apply (fallbackHeader_sidecar_without_target_throws "/home/u/.deno" "/"
           fs_sidecar_without_target "/home/u/.deno/deps/https/deno.land/x/h/mod"
           (JObject [("mime_type", JString "application/typescript")]) 0).
  - vm_compute; reflexivity.
  - vm_compute; reflexivity.
  - intros target. vm_compute. discriminate.
Defined.

Lemma fallbackHeader_on_stack_S
    (denoDir cwd : string) (fs : gmap string node)
    (fuel depth : nat) (modulePath : string) :
  fallbackHeader_on_stack denoDir cwd fs fuel (S depth) modulePath =
    if existsSync fs (validPath modulePath) then Ret modulePath
    else if existsSync fs (validPath modulePath +:+ ".headers.json") then
      text ← readFileSync fs (validPath modulePath +:+ ".headers.json") ;;;
      headers ← JSON_parse text ;;;
      redirect_to ← get_property headers "redirect_to" ;;;
      target ← as_string redirect_to ;;;
      stripped ← stripExtNameDotTs fuel target ;;;
      convertRemoteToLocalCache_with denoDir cwd
        (fallbackHeader_on_stack denoDir cwd fs fuel depth) stripped
    else Ret modulePath.
Proof. reflexivity. Qed.

Lemma fallbackHeader_on_stack_hop
    (denoDir cwd : string) (fs : gmap string node) (p q : string)
    (fuel depth : nat) :
  hop denoDir cwd fs p q →
  fallbackHeader_on_stack denoDir cwd fs fuel (S depth) p
    = fallbackHeader_on_stack denoDir cwd fs fuel depth q.
Proof.
  intros (target & (Hno & headers & Hread & Hprop) & Hq & Hremote & Hback).
  rewrite fallbackHeader_on_stack_S, Hno.
  rewrite (readFileSync_exists _ _ _ Hread), Hread. cbn. rewrite Hprop. cbn.
  rewrite stripExtNameDotTs_no_query by done. cbn.
  unfold convertRemoteToLocalCache_with. rewrite Hback.
  by destruct (startsWith _ "http://"), (startsWith _ "https://").
Qed.

(** X8.  Redirects are followed along a chain as far as the call stack
    reaches.  If the sidecars lead from [modulePath] through the paths
    [hops], and the last path is present or has no sidecar, then
    [fallbackHeader] returns that last path when the stack has room for
    more nested calls than there are hops, and throws a [RangeError] when
    it has not: each hop nests one call deeper and the function sets no
    bound of its own. *)
Theorem fallbackHeader_on_stack_follows_chain
    (denoDir cwd : string) (fs : gmap string node)
    (modulePath : string) (hops : list string) :
  chain denoDir cwd fs modulePath hops →
  settled fs (default modulePath (last hops)) →
  (∀ fuel depth, (length hops < depth)%nat →
     fallbackHeader_on_stack denoDir cwd fs fuel depth modulePath
       = Ret (default modulePath (last hops))) ∧
  (∀ fuel depth, (depth ≤ length hops)%nat →
     fallbackHeader_on_stack denoDir cwd fs fuel depth modulePath
       = Throw RangeError).
Proof.
  revert modulePath. induction hops as [|q rest IH]; intros modulePath Hchain Hend.
  - change (default modulePath (last [])) with modulePath in *. split.
    + intros fuel [|depth] Hlt; [cbn in Hlt; lia|].
      rewrite fallbackHeader_on_stack_S.
      destruct Hend as [-> | Hnone]; [done|].
      rewrite Hnone. by destruct (existsSync fs (validPath modulePath)).
    + intros fuel depth Hle. cbn in Hle. by replace depth with O by lia.
  - destruct Hchain as [Hhop Hchain].
    assert (default modulePath (last (q :: rest)) = default q (last rest)) as Hlast.
    { destruct rest as [|q' rest']; [done|].
      rewrite last_cons_cons, last_cons. by destruct (last rest'). }
    rewrite Hlast in *. destruct (IH q Hchain Hend) as [IH1 IH2]. split.
    + intros fuel [|depth] Hlt; cbn in Hlt; [lia|].
      rewrite (fallbackHeader_on_stack_hop _ _ _ _ _ _ _ Hhop). apply IH1. lia.
    + intros fuel [|depth] Hle; [done|]. cbn in Hle.
      rewrite (fallbackHeader_on_stack_hop _ _ _ _ _ _ _ Hhop). apply IH2. lia.
Qed.

Lemma fallbackHeader_on_stack_follows_two_hops :
  fallbackHeader_on_stack "/home/u/.deno" "/" fs_chain 0 3
    "/home/u/.deno/deps/https/deno.land/x/v1/mod"
  = Ret "/home/u/.deno/deps/https/deno.land/x/v3/mod" ∧
  fallbackHeader_on_stack "/home/u/.deno" "/" fs_chain 0 2
    "/home/u/.deno/deps/https/deno.land/x/v1/mod" = Throw RangeError.
Proof.
  destruct (fallbackHeader_on_stack_follows_chain "/home/u/.deno" "/" fs_chain
              "/home/u/.deno/deps/https/deno.land/x/v1/mod"
              ["/home/u/.deno/deps/https/deno.land/x/v2/mod";
               "/home/u/.deno/deps/https/deno.land/x/v3/mod"]) as [H1 H2].
  - split; [|split; [|done]].
    + exists "https://deno.land/x/v2/mod.ts". split; [|by vm_compute].
      split; [vm_compute; reflexivity|].
      exists (JObject [("redirect_to", JString "https://deno.land/x/v2/mod.ts")]).
      split; vm_compute; reflexivity.
    + exists "https://deno.land/x/v3/mod.ts". split; [|by vm_compute].
      split; [vm_compute; reflexivity|].
      exists (JObject [("redirect_to", JString "https://deno.land/x/v3/mod.ts")]).
      split; vm_compute; reflexivity.
  - left. vm_compute. reflexivity.
  - split; [apply (H1 0%nat 3%nat); cbn; lia | apply (H2 0%nat 2%nat); cbn; lia].
Defined.

(** X9.  The path whose existence [fallbackHeader] checks always ends with
    [.ts], and computing it again changes nothing; so a module path with
    and without the extension are looked up at the same place. *)
Theorem validPath_ends_with_ts (modulePath : string) :
  endsWith (validPath modulePath) ".ts" = true ∧
  validPath (validPath modulePath) = validPath modulePath ∧
  validPath (modulePath +:+ ".ts") = modulePath +:+ ".ts".
Proof.
  assert (endsWith (validPath modulePath) ".ts" = true) as H.
  { unfold validPath. destruct (endsWith modulePath ".ts") eqn:He; [done|].
    apply endsWith_append. }
  split; [done|]. split.
  - unfold validPath at 1. by rewrite H.
  - unfold validPath. by rewrite endsWith_append.
Qed.

(** ** More on the import map store *)

(** X10.  A load that throws leaves the store as it was: nothing is cached
    for a file that is missing or cannot be parsed, and a failed load
    removes nothing. *)
Theorem getImportMap_failure_keeps_store
    (fs : gmap string node) (st : store) (filePath : string) (e : error) :
  (getImportMap fs st filePath).1 = Throw e →
  (getImportMap fs st filePath).2 = st.
Proof.
  unfold getImportMap.
  destruct (statSync_mtimeMs fs filePath) as [m| |]; [|done..].
  destruct (importMapCache st !! cacheKey filePath m); [done|].
  by destruct (bind _ _).
Qed.

Lemma getImportMap_failure_keeps_store_after_a_load :
  (getImportMap fs_import_map_garbled
     (getImportMap fs_import_map_touched empty_store "/p/import_map.json").2
     "/p/import_map.json").1 = Throw SyntaxError ∧
  (getImportMap fs_import_map_garbled
     (getImportMap fs_import_map_touched empty_store "/p/import_map.json").2
     "/p/import_map.json").2
  = (getImportMap fs_import_map_touched empty_store "/p/import_map.json").2.
Proof.
  split; [vm_compute; reflexivity|].
  apply (getImportMap_failure_keeps_store fs_import_map_garbled _ _ SyntaxError).
  vm_compute; reflexivity.
Defined.

Lemma getImportMap_store_inv (fs : gmap string node) (st : store) (filePath : string) :
  store_inv st → store_inv (getImportMap fs st filePath).2.
Proof.
  intros (Hwf & Hinj & Hsize). split; [by apply getImportMap_wf|].
  unfold getImportMap.
  destruct (statSync_mtimeMs fs filePath) as [m| |]; [|done..].
  destruct (importMapCache st !! cacheKey filePath m) eqn:Hc; [done|].
  destruct (bind _ _) as [doc| |]; cbn; try done. split.
  - intros k1 k2 l.
    destruct (decide (cacheKey filePath m = k1)) as [<-|H1],
             (decide (cacheKey filePath m = k2)) as [<-|H2]; [done|..].
    + rewrite lookup_insert_eq, lookup_insert_ne by done.
      intros [= <-] Hl%Hwf. lia.
    + rewrite lookup_insert_eq, lookup_insert_ne by done.
      intros Hl%Hwf [= <-]. lia.
    + rewrite !lookup_insert_ne by done. apply Hinj.
  - rewrite map_size_insert_None by done. rewrite length_app. cbn. lia.
Qed.

(** X11.  Whatever files a process loads, in whatever order and with
    whatever failures in between, its cache and heap stay matched: every
    cached reference points to a parsed document, no two cache keys share a
    document, and each parsed document is cached under exactly one key. *)
Theorem run_loads_store_inv (loads : list (gmap string node * string)) :
  store_inv (run_loads empty_store loads).
Proof.
  assert (∀ st, store_inv st → store_inv (run_loads st loads)) as H.
  { induction loads as [|[fs filePath] loads IH]; intros st Hinv; [done|].
    cbn. apply IH. by apply getImportMap_store_inv. }
  apply H. split; [by intros key l|]. split; [by intros k1 k2 l|done].
Qed.

Lemma key_split (p1 p2 d1 d2 : string) :
  indexOf d1 "-" = -1 → indexOf d2 "-" = -1 →
  p1 +:+ "-" +:+ d1 = p2 +:+ "-" +:+ d2 → p1 = p2 ∧ d1 = d2.
Proof.
  assert (∀ s, "" +:+ s = s) as app_empty by done.
  intros H1 H2. revert p2. induction p1 as [|c p1 IH]; intros [|c' p2] H;
    rewrite ?app_String, ?app_empty in H; injection H as ?; subst.
  - done.
  - by destruct (indexOf_occurrence p2 "-" d2).
  - by destruct (indexOf_occurrence p1 "-" d1).
  - match goal with E : _ +:+ _ = _ |- _ => by destruct (IH _ E) as [-> ->] end.
Qed.

(** X12.  For modification times whose decimal writing contains no [-]
    (JavaScript writes a time of 1970 or later that way, fraction
    included), the cache key determines the path and the time: two loads
    share a cache entry only if they are loads of the same path at the same
    modification time. *)
Theorem cacheKey_determines_file (p1 p2 : string) (m1 m2 : number) :
  indexOf (Number_toString m1) "-" = -1 →
  indexOf (Number_toString m2) "-" = -1 →
  cacheKey p1 m1 = cacheKey p2 m2 → p1 = p2 ∧ m1 = m2.
Proof.
  intros Hm1 Hm2 Hkey. unfold cacheKey in Hkey.
  apply key_split in Hkey as [-> Hp]; [|done..].
  destruct m1, m2. cbn in Hp. by rewrite Hp.
Qed.

Lemma cacheKey_determines_file_with_dash_in_path :
  cacheKey "/p/a-1" (Number "1573000000000.1234")
    = "/p/a-1-1573000000000.1234" ∧
  "/p/a-1" = "/p/a-1" ∧
  Number "1573000000000.1234" = Number "1573000000000.1234".
Proof.
  split; [reflexivity|].
  apply (cacheKey_determines_file "/p/a-1" "/p/a-1"
           (Number "1573000000000.1234") (Number "1573000000000.1234"));
    reflexivity.
Defined.

(** The hypothesis matters: the sign of a time before 1970 reads as part
    of the path. *)
Example cacheKey_collision_with_negative_time :
  cacheKey "/p/m" (Number "-5") = cacheKey "/p/m-" (Number "5").
Proof. reflexivity. Qed.

(** ** More on the import map substitution *)

Lemma transform_loop_match_within
    (imports : list (string * string)) (keys after : list string) (moduleName : string) :
  (∃ k, k ∈ keys ∧ startsWith moduleName k = true) →
  ∃ key, key ∈ keys ∧ startsWith moduleName key = true ∧
         transform_loop imports (keys ++ after) moduleName =
           default "undefined" (last_member imports key)
             +:+ str_drop (String.length key) moduleName.
Proof.
  induction keys as [|k0 keys IH]; intros (k & Hin & Hk).
  { by apply elem_of_nil in Hin. }
  cbn. destruct (startsWith moduleName k0) eqn:H0.
  - exists k0. split; [left|]. split; [done|].
    rewrite substring_from_drop. unfold str_length. by rewrite Nat2Z.id.
  - apply elem_of_cons in Hin as [->|Hin]; [congruence|].
    destruct IH as (key & Hkey & Hs & Heq); [by eauto|].
    exists key. split; [by right|]. done.
Qed.

(** X13.  An import-map key is shadowed by any key that is a prefix of it
    and comes earlier in the order of [Object.keys]: for a specifier that
    begins with the later key [k2], the substitution is made with the
    earlier key [k1] or with one before it, never further down the list. *)
Theorem transformFromImportMap_shadowed_key
    (importMap : IImportMap) (before after : list string)
    (k1 k2 moduleName : string) :
  Object_keys (imports importMap) = before ++ k1 :: after →
  k2 ∈ after →
  startsWith k2 k1 = true →
  startsWith moduleName k2 = true →
  ∃ key value,
    key ∈ before ++ [k1] ∧ startsWith moduleName key = true ∧
    last_member (imports importMap) key = Some value ∧
    transformFromImportMap importMap moduleName =
      value +:+ str_drop (String.length key) moduleName.
Proof.
  intros Hkeys _ H21 H2.
  pose proof (startsWith_trans _ _ _ H2 H21) as H1.
  destruct (transform_loop_match_within (imports importMap) (before ++ [k1]) after
              moduleName) as (key & Hin & Hs & Heq).
  { exists k1. split; [|done]. apply elem_of_app. right. left. }
  assert (key ∈ Object_keys (imports importMap)) as Hkey.
  { rewrite Hkeys. apply elem_of_app in Hin as [Hin|Hin].
    - apply elem_of_app. by left.
    - apply list_elem_of_singleton in Hin as ->. apply elem_of_app. right. left. }
  apply Object_keys_subseteq, last_member_is_Some in Hkey as [value Hvalue].
  exists key, value. split; [done|]. split; [done|]. split; [done|].
  unfold transformFromImportMap. rewrite Hkeys.
  rewrite <- app_assoc in Heq. cbn in Heq. by rewrite Heq, Hvalue.
Qed.

Lemma transformFromImportMap_shadowed_key_std_http :
  ∃ key value,
    key ∈ [] ++ ["std/"] ∧ startsWith "std/http/mod.ts" key = true ∧
    last_member
      (imports {| imports := [("std/", "https://deno.land/std/");
                             ("std/http/", "https://example.com/http/")] |}) key
      = Some value ∧
    transformFromImportMap
      {| imports := [("std/", "https://deno.land/std/");
                     ("std/http/", "https://example.com/http/")] |} "std/http/mod.ts"
    = value +:+ str_drop (String.length key) "std/http/mod.ts".
Proof.
  apply (transformFromImportMap_shadowed_key
           {| imports := [("std/", "https://deno.land/std/");
                          ("std/http/", "https://example.com/http/")] |}
           [] ["std/http/"] "std/" "std/http/" "std/http/mod.ts").
  - reflexivity.
  - apply list_elem_of_singleton. reflexivity.
  - reflexivity.
  - reflexivity.
Defined.

(** ** The module-name hook *)

Lemma mapM_compose {A B C : Type} (f : A → outcome B) (g : B → outcome C)
    (l : list A) (out : list C) :
  bind (mapM f l) (mapM g) = Ret out ↔
  Forall2 (λ x o, ∃ t, f x = Ret t ∧ g t = Ret o) l out.
Proof.
  revert out. induction l as [|x l IH]; intros out; cbn.
  - split; [by intros [= <-]; constructor | by intros ->%Forall2_nil_inv_l].
  - split.
    + intros H. destruct (f x) as [t| |] eqn:Hf; cbn in H; try done.
      destruct (mapM f l) as [ts| |] eqn:Hl; cbn in H; try done.
      destruct (g t) as [o| |] eqn:Hg; cbn in H; try done.
      destruct (mapM g ts) as [os| |] eqn:Hts; cbn in H; try done.
      injection H as <-. constructor; [by eauto|]. by apply IH.
    + intros (o & out' & (t & Hf & Hg) & H & ->)%Forall2_cons_inv_l.
      apply IH in H. rewrite Hf. cbn.
      destruct (mapM f l) as [ts| |]; cbn in *; try done.
      by rewrite Hg, H.
Qed.

Lemma mapM_out_of_fuel {A B : Type} (f : A → outcome B) (l : list A) (x : A) :
  (∀ y e, f y ≠ Throw e) → x ∈ l → f x = OutOfFuel → mapM f l = OutOfFuel.
Proof.
  intros Hnothrow Hin Hx. induction l as [|y l IH]; [by apply elem_of_nil in Hin|].
  cbn. apply elem_of_cons in Hin as [<-|Hin]; [by rewrite Hx|].
  destruct (f y) as [b|e|] eqn:Hy; [|by destruct (Hnothrow y e)|done].
  cbn. by rewrite IH.
Qed.

Lemma mapM_unchanged {A : Type} (f : A → outcome A) (l : list A) :
  Forall (λ x, f x = Ret x) l → mapM f l = Ret l.
Proof.
  induction 1 as [|x l Hx _ IH]; [done|]. cbn. by rewrite Hx, IH.
Qed.

(** X14.  The three passes over the batch amount to one pass: the hook
    returns [out] exactly when every name, sent through the import map,
    then [stripExtNameDotTs], then [convertRemoteToLocalCache], returns the
    name at the same position of [out].  In particular the result has the
    length and the order of the input. *)
Theorem resolveModuleNames_pointwise
    (denoDir cwd : string) (fs : gmap string node) (importMap : option IImportMap)
    (fuel : nat) (moduleNames out : list string) :
  (resolveModuleNames denoDir cwd fs importMap fuel moduleNames = Ret out ↔
   Forall2
     (λ moduleName resolved,
        ∃ stripped,
          stripExtNameDotTs fuel (makeTransformFromImportMap importMap moduleName)
            = Ret stripped ∧
          convertRemoteToLocalCache denoDir cwd fs fuel stripped = Ret resolved)
     moduleNames out) ∧
  (resolveModuleNames denoDir cwd fs importMap fuel moduleNames = Ret out →
   length out = length moduleNames).
Proof.
  assert (resolveModuleNames denoDir cwd fs importMap fuel moduleNames = Ret out ↔
          Forall2
            (λ moduleName resolved,
               ∃ stripped,
                 stripExtNameDotTs fuel (makeTransformFromImportMap importMap moduleName)
                   = Ret stripped ∧
                 convertRemoteToLocalCache denoDir cwd fs fuel stripped = Ret resolved)
            moduleNames out) as H.
  { unfold resolveModuleNames. rewrite mapM_compose. by rewrite Forall2_fmap_l. }
  split; [done|]. intros Hret%H. symmetry. by eapply Forall2_length.
Qed.

(** X15.  One specifier is enough to hang a whole batch: if some name of
    the batch, once sent through the import map, contains a [?] and no
    [.ts], the hook never returns, whatever the other names are. *)
Theorem resolveModuleNames_one_name_hangs_the_batch
    (denoDir cwd : string) (fs : gmap string node) (importMap : option IImportMap)
    (moduleNames : list string) (moduleName : string) :
  moduleName ∈ moduleNames →
  indexOf (makeTransformFromImportMap importMap moduleName) "?" ≠ -1 →
  indexOf (makeTransformFromImportMap importMap moduleName) ".ts" = -1 →
  diverges (λ fuel, resolveModuleNames denoDir cwd fs importMap fuel moduleNames).
Proof.
  intros Hin Hq Hts fuel. unfold resolveModuleNames.
  rewrite (mapM_out_of_fuel _ _ (makeTransformFromImportMap importMap moduleName)).
  - done.
  - intros y e. apply stripExtNameDotTs_never_throws.
  - by apply list_elem_of_fmap_2.
  - unfold stripExtNameDotTs, getModuleWithQueryString.
    rewrite getModuleWithQueryString_loop_diverges; [done..|].
    exists O. by rewrite str_drop_0.
Qed.

Lemma resolveModuleNames_hangs_on_query_without_ts :
  "foo?bar" ∈ ["./a.ts"; "foo?bar"; "https://deno.land/x/b/mod.ts"] ∧
  resolveModuleNames "/home/u/.deno" "/" ∅ None 1000
    ["./a.ts"; "foo?bar"; "https://deno.land/x/b/mod.ts"] = OutOfFuel.
Proof.
  assert ("foo?bar" ∈ ["./a.ts"; "foo?bar"; "https://deno.land/x/b/mod.ts"]) as Hin
    by (right; left).
  split; [exact Hin|].
  apply (resolveModuleNames_one_name_hangs_the_batch "/home/u/.deno" "/" ∅ None
           ["./a.ts"; "foo?bar"; "https://deno.land/x/b/mod.ts"] "foo?bar" Hin);
    vm_compute; congruence.
Defined.

(** X16.  Names that no import-map key matches, that have no [?], do not
    end with [.ts] and are not remote addresses pass through the hook
    unchanged, without any fuel being needed. *)
Theorem resolveModuleNames_plain_names_unchanged
    (denoDir cwd : string) (fs : gmap string node) (importMap : option IImportMap)
    (fuel : nat) (moduleNames : list string) :
  Forall (λ moduleName,
            makeTransformFromImportMap importMap moduleName = moduleName ∧
            indexOf moduleName "?" = -1 ∧
            endsWith moduleName ".ts" = false ∧
            startsWith moduleName "http://" = false ∧
            startsWith moduleName "https://" = false) moduleNames →
  resolveModuleNames denoDir cwd fs importMap fuel moduleNames = Ret moduleNames.
Proof.
  intros Hplain. unfold resolveModuleNames.
  assert (map (makeTransformFromImportMap importMap) moduleNames = moduleNames) as ->.
  { induction Hplain as [|x l (Hx & _) _ IH]; [done|]. cbn. by rewrite Hx, IH. }
  rewrite mapM_unchanged.
  - cbn. apply mapM_unchanged. eapply Forall_impl; [exact Hplain|].
    intros x (_ & _ & _ & H1 & H2). by apply convertRemoteToLocalCache_local.
  - eapply Forall_impl; [exact Hplain|].
    intros x (_ & Hq & He & _). by rewrite stripExtNameDotTs_no_query, He.
Qed.

Lemma resolveModuleNames_relative_names_unchanged :
  resolveModuleNames "/home/u/.deno" "/" fs_moved
    (Some {| imports := [("std/", "https://deno.land/std/")] |}) 0
    ["./util"; "../lib/x.js"]
  = Ret ["./util"; "../lib/x.js"].
Proof.
  apply (resolveModuleNames_plain_names_unchanged "/home/u/.deno" "/" fs_moved
           (Some {| imports := [("std/", "https://deno.land/std/")] |}) 0
           ["./util"; "../lib/x.js"]).
  repeat constructor.
Defined.

(** ** The declaration file of the runtime *)

Lemma path_resolve_nonempty (cwd : string) (args : list string) :
  path_resolve cwd args ≠ "".
Proof.
  unfold path_resolve. destruct (resolve_scan _ _) as [resolvedPath [|]]; [done|].
  by case_decide.
Qed.

Lemma getDtsPathForVscode_exists
    (fs : gmap string node) (dtsPath : option string) (path : string) :
  getDtsPathForVscode fs dtsPath = Some path → existsSync fs path = true.
Proof.
  unfold getDtsPathForVscode. destruct dtsPath as [b|]; [|done].
  destruct (truthy (Some b) && existsSync fs (default "" (Some b))) eqn:E; [|done].
  intros [= <-]. by apply andb_true_iff in E as [_ E].
Qed.

Lemma getGlobalDtsPath_exists
    (denoDir cwd : string) (fs : gmap string node) (path : string) :
  getGlobalDtsPath denoDir cwd fs = Some path → existsSync fs path = true.
Proof.
  unfold getGlobalDtsPath. generalize (path_resolve cwd [denoDir; "lib.deno_runtime.d.ts"]).
  intros q. destruct (existsSync fs q) eqn:E; [|done]. by intros [= <-].
Qed.

Lemma getLocalDtsPath_exists
    (cwd : string) (fs : gmap string node) (currentDirectory path : string) :
  getLocalDtsPath cwd fs currentDirectory = Some path → existsSync fs path = true.
Proof.
  unfold getLocalDtsPath. generalize (path_resolve cwd
    [currentDirectory; "node_modules"; "typescript-deno-plugin"; "lib";
     "lib.deno_runtime.d.ts"]).
  intros q. destruct (existsSync fs q) eqn:E; [|done]. by intros [= <-].
Qed.

Lemma or_else_Some (a b : option string) (path : string) :
  or_else a b = Some path → a = Some path ∨ b = Some path.
Proof. unfold or_else. destruct (truthy a); auto. Qed.

(** X17.  The replaced [getScriptFileNames] keeps the names of the host in
    place and adds at most one name at the end; a name it adds is the path
    of something that exists. *)
Theorem getScriptFileNames_appends_existing
    (denoDir cwd : string) (fs : gmap string node)
    (dtsPath : option string) (currentDirectory : string)
    (scriptFileNames : list string) :
  ∃ added,
    getScriptFileNames denoDir cwd fs dtsPath currentDirectory scriptFileNames
      = scriptFileNames ++ added ∧
    (length added ≤ 1)%nat ∧
    ∀ path, path ∈ added → existsSync fs path = true.
Proof.
  unfold getScriptFileNames.
  destruct (or_else _ (getLocalDtsPath cwd fs currentDirectory)) as [path|] eqn:Hfound.
  - destruct (truthy (Some path)).
    + exists [path]. split; [done|]. split; [cbn; lia|].
      intros ? ->%list_elem_of_singleton.
      apply or_else_Some in Hfound as [Hfound|Hfound].
      * apply or_else_Some in Hfound as [Hfound|Hfound].
        -- by eapply getDtsPathForVscode_exists.
        -- by eapply getGlobalDtsPath_exists.
      * by eapply getLocalDtsPath_exists.
    + exists []. split; [by rewrite app_nil_r|]. split; [cbn; lia|].
      by intros ? ?%elem_of_nil.
  - exists []. split; [by rewrite app_nil_r|]. split; [cbn; lia|].
    by intros ? ?%elem_of_nil.
Qed.

Lemma truthy_path_resolve (cwd : string) (args : list string) :
  truthy (Some (path_resolve cwd args)) = true.
Proof.
  unfold truthy. rewrite bool_decide_false; [done|]. apply path_resolve_nonempty.
Qed.

(** X18.  Which declaration file is added: the bundled one when it is
    configured and exists; otherwise the one under [DenoDir] when that
    exists; otherwise the one under the project's [node_modules] when that
    exists; otherwise none. *)
Theorem getScriptFileNames_priority
    (denoDir cwd : string) (fs : gmap string node)
    (dtsPath : option string) (currentDirectory : string)
    (scriptFileNames : list string) :
  (∀ bundled, dtsPath = Some bundled → bundled ≠ "" → existsSync fs bundled = true →
     getScriptFileNames denoDir cwd fs dtsPath currentDirectory scriptFileNames
       = scriptFileNames ++ [bundled]) ∧
  (getDtsPathForVscode fs dtsPath = None →
   existsSync fs (path_resolve cwd [denoDir; "lib.deno_runtime.d.ts"]) = true →
     getScriptFileNames denoDir cwd fs dtsPath currentDirectory scriptFileNames
       = scriptFileNames ++ [path_resolve cwd [denoDir; "lib.deno_runtime.d.ts"]]) ∧
  (getDtsPathForVscode fs dtsPath = None →
   getGlobalDtsPath denoDir cwd fs = None →
     getScriptFileNames denoDir cwd fs dtsPath currentDirectory scriptFileNames
       = match getLocalDtsPath cwd fs currentDirectory with
         | Some localDtsPath => scriptFileNames ++ [localDtsPath]
         | None => scriptFileNames
         end).
Proof.
  unfold getScriptFileNames. split; [|split].
  - intros bundled -> Hne Hex.
    assert (truthy (Some bundled) = true) as Ht
      by (unfold truthy; by rewrite bool_decide_false).
    assert (getDtsPathForVscode fs (Some bundled) = Some bundled) as ->.
    { unfold getDtsPathForVscode. change (default "" (Some bundled)) with bundled.
      by rewrite Ht, Hex. }
    unfold or_else. by rewrite !Ht.
  - intros -> Hex. unfold getGlobalDtsPath, or_else. rewrite Hex.
    change (truthy None) with false. cbv iota.
    rewrite !truthy_path_resolve. done.
  - intros -> ->. unfold or_else, getLocalDtsPath.
    change (truthy None) with false. cbv iota.
    change (truthy None) with false. cbv iota.
    generalize (truthy_path_resolve cwd
      [currentDirectory; "node_modules"; "typescript-deno-plugin"; "lib";
       "lib.deno_runtime.d.ts"]).
    generalize (path_resolve cwd
      [currentDirectory; "node_modules"; "typescript-deno-plugin"; "lib";
       "lib.deno_runtime.d.ts"]).
    intros q Hq. destruct (existsSync fs q); [by rewrite Hq|done].
Qed.

Lemma getScriptFileNames_prefers_global_to_local :
  getScriptFileNames "/home/u/.deno" "/" fs_dts None "/w/proj" ["/w/proj/main.ts"]
  = ["/w/proj/main.ts"; "/home/u/.deno/lib.deno_runtime.d.ts"].
Proof.
  destruct (getScriptFileNames_priority "/home/u/.deno" "/" fs_dts None "/w/proj"
              ["/w/proj/main.ts"]) as (_ & H & _).
  rewrite H; [reflexivity | reflexivity | vm_compute; reflexivity].
Defined.


(** ** Failures in a batch *)

Lemma mapM_returns {A B : Type} (f : A → outcome B) (l : list A) :
  Forall (λ x, ∃ b, f x = Ret b) l → ∃ out, mapM f l = Ret out.
Proof.
  induction 1 as [|x l [b Hx] _ [out IH]]; [by exists []|].
  exists (b :: out). cbn. by rewrite Hx, IH.
Qed.

Lemma mapM_compose_throws {A B C : Type} (f : A → outcome B) (g : B → outcome C)
    (before after : list A) (x : A) (t : B) (e : error) :
  Forall (λ y, ∃ u o, f y = Ret u ∧ g u = Ret o) before →
  f x = Ret t → g t = Throw e →
  Forall (λ y, ∃ u, f y = Ret u) after →
  bind (mapM f (before ++ x :: after)) (mapM g) = Throw e.
Proof.
  intros Hbefore Hx Hg Hafter.
  induction Hbefore as [|y before (u & o & Hy & Hu) _ IH]; cbn.
  - destruct (mapM_returns f after Hafter) as [ts ->]. rewrite Hx. cbn.
    by rewrite Hg.
  - rewrite Hy. cbn.
    destruct (mapM f (before ++ x :: after)) as [ts| |]; cbn in *; try done.
    by rewrite Hu, IH.
Qed.

(** X19.  A failure is not contained: when every name of the batch gets
    through [stripExtNameDotTs], the names before [moduleName] resolve, and
    [convertRemoteToLocalCache] throws for [moduleName] (an unreadable
    sidecar, say), the hook throws the same error and returns nothing for
    the other names. *)
Theorem resolveModuleNames_throws
    (denoDir cwd : string) (fs : gmap string node) (importMap : option IImportMap)
    (fuel : nat) (before after : list string) (moduleName stripped : string)
    (e : error) :
  Forall (λ name, ∃ t o,
            stripExtNameDotTs fuel (makeTransformFromImportMap importMap name) = Ret t ∧
            convertRemoteToLocalCache denoDir cwd fs fuel t = Ret o) before →
  stripExtNameDotTs fuel (makeTransformFromImportMap importMap moduleName)
    = Ret stripped →
  convertRemoteToLocalCache denoDir cwd fs fuel stripped = Throw e →
  Forall (λ name, ∃ t,
            stripExtNameDotTs fuel (makeTransformFromImportMap importMap name) = Ret t)
         after →
  resolveModuleNames denoDir cwd fs importMap fuel (before ++ moduleName :: after)
    = Throw e.
Proof.
  intros Hbefore Hx Hg Hafter. unfold resolveModuleNames.
  rewrite fmap_app, fmap_cons.
  apply (mapM_compose_throws _ _ _ _ _ stripped); try done.
  - by apply Forall_fmap.
  - by apply Forall_fmap.
Qed.

Lemma resolveModuleNames_throws_on_garbled_sidecar :
  resolveModuleNames "/home/u/.deno" "/" fs_garbled_sidecar None 1
    (["./a"] ++ "https://deno.land/x/g/mod.ts" :: ["./b"])
  = Throw SyntaxError.
Proof.
  apply (resolveModuleNames_throws "/home/u/.deno" "/" fs_garbled_sidecar None 1
           ["./a"] ["./b"] "https://deno.land/x/g/mod.ts" "https://deno.land/x/g/mod").
  - repeat constructor. exists "./a", "./a". split; reflexivity.
  - reflexivity.
  - vm_compute. reflexivity.
  - repeat constructor. exists "./b". reflexivity.
Defined.
